(** * Resolver type tables of [BaseResolversVisitor]

    A shallow embedding of
    [packages/plugins/other/visitor-plugin-common/src/base-resolvers-visitor.ts]:
    the dependency analysis [shouldMapType], the table builder
    [createResolversFields] with its helpers, and the bookkeeping of used
    mappers, followed by the properties proved about them.

    Conventions of the embedding.
    - A JavaScript string is a sequence of code units; the model keeps the
      code units below 256, one [ascii] each.
    - A JavaScript object used as a dictionary is an insertion-ordered
      association list of its own properties ([Obj.t]).  The type map and the
      dictionaries of the configuration are built outside this file and are
      read by their own properties; their keys are GraphQL names, none of
      which is an array index, so [Obj.keys] lists them in insertion order.
    - The dictionaries this file creates with the literal [{}]
      ([nestedMapping], [_usedMappers], [groupedMappers]) have
      [Object.prototype] behind them: module [Plain] reads them through the
      names they inherit, ignores the assignment of a primitive to
      [__proto__], and lists their keys as [Object.keys] does, array indices
      first.  [prev] of the reduce is read only under a name it has just
      been written under, and never under a name that starts with [__].
      [shouldMapType] reads the configuration only under a name for which
      [checkedBefore] has answered [undefined], hence under no name of
      [Object.prototype].
    - [this] is passed explicitly as a [BaseResolversVisitor] record; the
      mutable members [_usedMappers], [_resolversTypes] and
      [_resolversParentTypes] are threaded as state. *)

From Stdlib Require Import String Ascii List Bool Arith NArith Lia Permutation Sorted.
Import ListNotations.
Open Scope string_scope.

(* ================================================================== *)
(** ** JavaScript primitives used by the visitor *)

Module Js.

(** [s.startsWith(p)]. *)
Definition startsWith (s p : string) : bool := String.prefix p s.

(** [s.slice(n)]. *)
Fixpoint drop (n : nat) (s : string) : string :=
  match n, s with
  | 0, _ => s
  | S n', String _ r => drop n' r
  | S _, EmptyString => EmptyString
  end.

(** The first occurrence of [pat] in [s]: the text before it and the text
    after it. *)
Fixpoint splitAtFirst (pat s : string) : option (string * string) :=
  if String.prefix pat s then Some (EmptyString, drop (String.length pat) s)
  else
    match s with
    | EmptyString => None
    | String c r =>
        match splitAtFirst pat r with
        | Some (b, a) => Some (String c b, a)
        | None => None
        end
    end.

(** [s.includes(pat)]. *)
Definition includes (s pat : string) : bool :=
  match splitAtFirst pat s with Some _ => true | None => false end.

(** The replacement text of [String.prototype.replace] for a string pattern
    (ECMAScript GetSubstitution with no captures): [$$] is a dollar sign,
    [$&] the matched text, [$`] the text before the match, [$'] the text
    after it; any other character stands for itself. *)
Fixpoint getSubstitution (matched before after repl : string) : string :=
  match repl with
  | EmptyString => EmptyString
  | String a rest =>
      if Ascii.eqb a "$" then
        match rest with
        | String c r =>
            if Ascii.eqb c "$" then String "$" (getSubstitution matched before after r)
            else if Ascii.eqb c "&" then matched ++ getSubstitution matched before after r
            else if Ascii.eqb c "`" then before ++ getSubstitution matched before after r
            else if Ascii.eqb c "'" then after ++ getSubstitution matched before after r
            else String a (getSubstitution matched before after rest)
        | EmptyString => String a EmptyString
        end
      else String a (getSubstitution matched before after rest)
  end.

(** [s.replace(pat, repl)] for a string [pat]: the first occurrence only. *)
Definition replaceFirst (s pat repl : string) : string :=
  match splitAtFirst pat s with
  | Some (b, a) => b ++ getSubstitution pat b a repl ++ a
  | None => s
  end.

(** [parts.join(sep)]. *)
Definition join (sep : string) (parts : list string) : string :=
  String.concat sep parts.

(** [xs.includes(x)] on an array of strings. *)
Definition arrayIncludes (xs : list string) (x : string) : bool :=
  existsb (String.eqb x) xs.

(** Truthiness of a string-valued property that may be [undefined]. *)
Definition truthy (v : option string) : bool :=
  match v with
  | Some s => negb (String.eqb s EmptyString)
  | None => false
  end.

Definition LF : ascii := ascii_of_nat 10.
Definition CR : ascii := ascii_of_nat 13.

(** [s] holds a character that the regular expression atom [.] does not
    match.  Of the four line terminators (LF, CR, U+2028, U+2029) the first
    two are code units of the model. *)
Fixpoint hasLineTerminator (s : string) : bool :=
  match s with
  | EmptyString => false
  | String c r => Ascii.eqb c LF || Ascii.eqb c CR || hasLineTerminator r
  end.

(** [s] without its last character, and that character. *)
Fixpoint splitLast (s : string) : option (string * ascii) :=
  match s with
  | EmptyString => None
  | String c r =>
      match splitLast r with
      | None => Some (EmptyString, c)
      | Some (i, l) => Some (String c i, l)
      end
  end.

(** A match of the regular expression [/P(.*?)>$/] that starts at the first
    character of [s], for a literal [P]: the text of the capture.  The lazy
    [.*?] must reach the last character, since [>$] matches only there, and
    crosses no line terminator. *)
Definition matchWrappedHere (P s : string) : option string :=
  if String.prefix P s then
    match splitLast (drop (String.length P) s) with
    | Some (body, l) =>
        if Ascii.eqb l ">" && negb (hasLineTerminator body) then Some body else None
    | None => None
    end
  else None.

(** [s.replace(/P(.*?)>$/, '$1')]: the leftmost match is replaced by its
    capture; without a match [s] is returned as it is. *)
Fixpoint replaceWrapped (P s : string) : string :=
  match matchWrappedHere P s with
  | Some body => body
  | None =>
      match s with
      | EmptyString => EmptyString
      | String c r => String c (replaceWrapped P r)
      end
  end.

(** The property names of [Object.prototype].  An object created by [{}]
    answers each of them with the member it inherits: a function, and under
    [__proto__] the prototype itself. *)
Definition objectPrototypeNames : list string :=
  ["constructor"; "hasOwnProperty"; "isPrototypeOf"; "propertyIsEnumerable";
   "toLocaleString"; "toString"; "valueOf"; "__proto__";
   "__defineGetter__"; "__defineSetter__"; "__lookupGetter__"; "__lookupSetter__"].

Definition inObjectPrototype (k : string) : bool :=
  arrayIncludes objectPrototypeNames k.

(** What a dictionary of booleans created by [{}] can answer: a boolean, or
    the member of [Object.prototype] of the given name. *)
Inductive flag : Type :=
| Boolean (b : bool)
| PrototypeMember (key : string).

(** [!!v]: functions and objects are truthy. *)
Definition toBoolean (v : flag) : bool :=
  match v with
  | Boolean b => b
  | PrototypeMember _ => true
  end.

(** The outcome of code that may throw. *)
Inductive completion (A : Type) : Type :=
| Returns (a : A)
| Throws.

Arguments Returns {A} a.
Arguments Throws {A}.

Definition andThen {A B : Type} (r : completion A) (f : A -> completion B)
  : completion B :=
  match r with
  | Returns a => f a
  | Throws => Throws
  end.

Definition digit (c : ascii) : option N :=
  let n := N_of_ascii c in
  if ((48 <=? n) && (n <=? 57))%N then Some (n - 48)%N else None.

Fixpoint decimal (acc : N) (s : string) : option N :=
  match s with
  | EmptyString => Some acc
  | String c r =>
      match digit c with
      | Some d => decimal (10 * acc + d)%N r
      | None => None
      end
  end.

(** The array index a property key stands for: the key is the canonical
    decimal numeral (no sign, no leading zero) of a number below [2^32 - 1]. *)
Definition arrayIndex (k : string) : option N :=
  match k with
  | EmptyString => None
  | String c r =>
      if Ascii.eqb c "0" && negb (String.eqb r EmptyString) then None
      else
        match decimal 0 k with
        | Some n => if (n <? 4294967295)%N then Some n else None
        | None => None
        end
  end.

Definition isArrayIndex (k : string) : bool :=
  match arrayIndex k with Some _ => true | None => false end.

Fixpoint insertByIndex (n : N) (k : string) (sorted : list (N * string))
  : list (N * string) :=
  match sorted with
  | [] => [(n, k)]
  | (m, k') :: r =>
      if (n <=? m)%N then (n, k) :: sorted else (m, k') :: insertByIndex n k r
  end.

(** The array indices among [ks], in ascending order. *)
Definition sortedIndices (ks : list string) : list (N * string) :=
  fold_right
    (fun k acc =>
       match arrayIndex k with
       | Some n => insertByIndex n k acc
       | None => acc
       end)
    [] ks.

(** The order in which [Object.keys] lists the own keys [ks] of an ordinary
    object, [ks] being in order of creation: the array indices first, in
    ascending order, then the other keys as created. *)
Definition ownPropertyKeys (ks : list string) : list string :=
  (map snd (sortedIndices ks) ++ filter (fun k => negb (isArrayIndex k)) ks)%list.

End Js.

(* ================================================================== *)
(** ** JavaScript objects as insertion-ordered dictionaries *)

Module Obj.

Definition t (V : Type) : Type := list (string * V).

(** [o[k]], [None] for [undefined]. *)
Fixpoint get {V : Type} (k : string) (o : t V) : option V :=
  match o with
  | [] => None
  | (k', v) :: r => if String.eqb k' k then Some v else get k r
  end.

(** [o[k] = v]: an existing key keeps its place, a new key goes last. *)
Fixpoint set {V : Type} (k : string) (v : V) (o : t V) : t V :=
  match o with
  | [] => [(k, v)]
  | (k', v') :: r =>
      if String.eqb k' k then (k', v) :: r else (k', v') :: set k v r
  end.

(** [Object.keys(o)] for keys none of which is an array index: every key
    once, in insertion order.  ([Plain.keys] orders arbitrary keys.) *)
Fixpoint keys {V : Type} (o : t V) : list string :=
  match o with
  | [] => []
  | (k, _) :: r => k :: filter (fun k' => negb (String.eqb k' k)) (keys r)
  end.

Definition has {V : Type} (k : string) (o : t V) : bool :=
  match get k o with Some _ => true | None => false end.

End Obj.

(* ================================================================== *)
(** ** Objects created by the literal [{}] *)

(** The own properties are an [Obj.t]; [Object.prototype] stands behind
    them. *)
Module Plain.

(** What [o[k]] finds. *)
Inductive property (V : Type) : Type :=
| Own (v : V)
| Inherited
| Undefined.

Arguments Own {V} v.
Arguments Inherited {V}.
Arguments Undefined {V}.

(** [o[k]]: an own property, else the member [Object.prototype] has under
    that name, else [undefined]. *)
Definition get {V : Type} (k : string) (o : Obj.t V) : property V :=
  match Obj.get k o with
  | Some v => Own v
  | None => if Js.inObjectPrototype k then Inherited else Undefined
  end.

(** [o[k] = v].  Under [__proto__] the assignment runs the setter of
    [Object.prototype], which ignores a primitive and takes an object as the
    new prototype; the only object this file assigns there is
    [Object.prototype] itself (what [shouldMapType] returns for a type of
    that name, [shouldMapType_proto]), so that no own property is created
    and the prototype stays.  Under any other key the own property is
    written. *)
Definition set {V : Type} (k : string) (v : V) (o : Obj.t V) : Obj.t V :=
  if String.eqb k "__proto__" then o else Obj.set k v o.

(** [Object.keys(o)]. *)
Definition keys {V : Type} (o : Obj.t V) : list string :=
  Js.ownPropertyKeys (Obj.keys o).

End Plain.

(* ================================================================== *)
(** ** The schema *)

(** A field's type as graphql-js holds it: list and non-null modifiers around
    one named type.  graphql-js never nests a non-null directly in a
    non-null ([nullableAround] below). *)
Inductive GraphQLOutputType : Type :=
| GraphQLNamed (typeName : string)
| GraphQLList (ofType : GraphQLOutputType)
| GraphQLNonNull (ofType : GraphQLOutputType).

Record GraphQLField : Type := {
  fieldName : string;
  fieldType : GraphQLOutputType
}.

(** What the visitor reads of a named type: its kind, the fields of an object
    or interface type (in [Object.keys] order), the members of a union. *)
Inductive TypeKind : Type :=
| ObjectKind (fields : list GraphQLField)
| InterfaceKind (fields : list GraphQLField)
| UnionKind (types : list string)
| EnumKind
| ScalarKind
| InputObjectKind.

Record GraphQLNamedType : Type := {
  name : string;
  kind : TypeKind
}.

Definition isNonNullType (t : GraphQLOutputType) : bool :=
  match t with GraphQLNonNull _ => true | _ => false end.

Definition isListType (t : GraphQLOutputType) : bool :=
  match t with GraphQLList _ => true | _ => false end.

Definition isObjectType (t : GraphQLNamedType) : bool :=
  match kind t with ObjectKind _ => true | _ => false end.

Definition isInterfaceType (t : GraphQLNamedType) : bool :=
  match kind t with InterfaceKind _ => true | _ => false end.

Definition isUnionType (t : GraphQLNamedType) : bool :=
  match kind t with UnionKind _ => true | _ => false end.

Definition isEnumType (t : GraphQLNamedType) : bool :=
  match kind t with EnumKind => true | _ => false end.

(** [type.getFields()] of an object or interface type. *)
Definition getFields (t : GraphQLNamedType) : list GraphQLField :=
  match kind t with
  | ObjectKind fields | InterfaceKind fields => fields
  | _ => []
  end.

(** [type.getTypes()] of a union type. *)
Definition getTypes (t : GraphQLNamedType) : list string :=
  match kind t with UnionKind types => types | _ => [] end.

(** Modelled from the spec: [getBaseType] of [./utils], which is not among the
    sources.  The base type is a field's named type with list and non-null
    modifiers stripped; this is its name. *)
Fixpoint getBaseTypeName (t : GraphQLOutputType) : string :=
  match t with
  | GraphQLNamed n => n
  | GraphQLList t' | GraphQLNonNull t' => getBaseTypeName t'
  end.

(** No non-null directly around a non-null. *)
Fixpoint nullableAround (t : GraphQLOutputType) : bool :=
  match t with
  | GraphQLNamed _ => true
  | GraphQLList t' => nullableAround t'
  | GraphQLNonNull t' => negb (isNonNullType t') && nullableAround t'
  end.

(* ================================================================== *)
(** ** Configuration and the visitor *)

(** [ParsedMapper] of [./mappers]. *)
Record ParsedMapper : Type := {
  isExternal : bool;
  type : string;
  source : option string;
  default : bool
}.

(** An entry of [ParsedEnumValuesMap]; the visitor reads [typeIdentifier]. *)
Record ParsedEnumValue : Type := {
  typeIdentifier : string;
  sourceFile : option string
}.

(** [ParsedResolversConfig], with [scalars] of the [ParsedConfig] it extends
    (the result of [buildScalars]). *)
Record ParsedResolversConfig : Type := {
  scalars : Obj.t string;
  contextType : ParsedMapper;
  rootValueType : ParsedMapper;
  mappers : Obj.t ParsedMapper;
  defaultMapper : option ParsedMapper;
  avoidOptionals : bool;
  addUnderscoreToArgsType : bool;
  enumValues : Obj.t ParsedEnumValue
}.

(** The immutable members of the visitor: its configuration, the name
    converter of [BaseVisitor], the schema's type map ([getTypeMap()]) and
    the root type names ([getRootTypeNames], computed outside this file). *)
Record BaseResolversVisitor : Type := {
  config : ParsedResolversConfig;
  convertName : string -> string;
  _schema : Obj.t TypeKind;
  _rootTypeNames : list string
}.

Definition ResolverTypes : Type := Obj.t string.
Definition ResolverParentTypes : Type := Obj.t string.

(** The members the constructor fills. *)
Record VisitorState : Type := {
  _usedMappers : Obj.t bool;
  _resolversTypes : ResolverTypes;
  _resolversParentTypes : ResolverParentTypes
}.

(** The named type a name stands for.  Every field and every key of the type
    map refers to a type of the schema; a name the type map does not hold is
    read as a leaf type without fields. *)
Definition getType (this : BaseResolversVisitor) (n : string) : GraphQLNamedType :=
  {| name := n;
     kind := match Obj.get n (_schema this) with
             | Some k => k
             | None => ScalarKind
             end |}.

(** [getBaseType(field.type)]. *)
Definition getBaseType (this : BaseResolversVisitor) (t : GraphQLOutputType)
  : GraphQLNamedType :=
  getType this (getBaseTypeName t).

(* ================================================================== *)
(** ** String builders of the visitor *)

Definition replacePlaceholder (pattern typename : string) : string :=
  Js.replaceFirst pattern "{T}" typename.

Definition hasPlaceholder (pattern : string) : bool :=
  Js.includes pattern "{T}".

Definition applyMaybe (str : string) : string := "Maybe<" ++ str ++ ">".

Definition clearMaybe (str : string) : string :=
  if Js.startsWith str "Maybe<" then Js.replaceWrapped "Maybe<" str else str.

Definition clearResolverTypeWrapper (str : string) : string :=
  if Js.startsWith str "ResolverTypeWrapper<"
  then Js.replaceWrapped "ResolverTypeWrapper<" str
  else str.

Definition applyResolverTypeWrapper (str : string) : string :=
  "ResolverTypeWrapper<" ++ clearResolverTypeWrapper str ++ ">".

Fixpoint wrapTypeWithModifiers (baseType : string) (t : GraphQLOutputType) : string :=
  match t with
  | GraphQLNonNull ofType => clearMaybe (wrapTypeWithModifiers baseType ofType)
  | GraphQLList ofType =>
      let innerType := wrapTypeWithModifiers baseType ofType in
      applyMaybe ("Array<" ++ innerType ++ ">")
  | GraphQLNamed _ => applyMaybe baseType
  end.

Definition _getScalar (n : string) : string := "Scalars['" ++ n ++ "']".

Definition getTypeToUse (this : BaseResolversVisitor) (n : string) : string :=
  let resolversType := convertName this "ResolversTypes" in
  resolversType ++ "['" ++ n ++ "']".

Definition getParentTypeToUse (this : BaseResolversVisitor) (n : string) : string :=
  let resolversType := convertName this "ResolversParentTypes" in
  resolversType ++ "['" ++ n ++ "']".

(** An element of [relevantFields]; [relevantName] is its [fieldName]. *)
Record RelevantField : Type := {
  addOptionalSign : bool;
  relevantName : string;
  replaceWithType : string
}.

Definition replaceFieldsInType (typeName : string) (relevantFields : list RelevantField)
  : string :=
  "Omit<" ++ typeName ++ ", "
  ++ Js.join " | " (map (fun f => "'" ++ relevantName f ++ "'") relevantFields)
  ++ "> & { "
  ++ Js.join ", "
       (map (fun f => relevantName f ++ (if addOptionalSign f then "?" else "")
                      ++ ": " ++ replaceWithType f) relevantFields)
  ++ " }".

(* ================================================================== *)
(** ** The dependency analysis: [shouldMapType] *)

(** [checkedBefore[n]], [None] for [undefined].  The table is created by
    [{}]: under a name of [Object.prototype] that it does not hold itself it
    answers the inherited member. *)
Definition checked (checkedBefore : Obj.t Js.flag) (n : string) : option Js.flag :=
  match Plain.get n checkedBefore with
  | Plain.Own v => Some v
  | Plain.Inherited => Some (Js.PrototypeMember n)
  | Plain.Undefined => None
  end.

(** The [.some(fieldName => ...)] loop of [shouldMapType] over the fields the
    [.filter] kept.  [recur] is the recursive call; [duringCheck] is the one
    array shared by all calls, so the pushes of a call are seen by the calls
    after it.  [some] stops at the first field whose answer is truthy, and
    returns a boolean. *)
Fixpoint shouldMapFields (this : BaseResolversVisitor)
    (recur : GraphQLNamedType -> list string -> option (Js.flag * list string))
    (type : GraphQLNamedType) (checkedBefore : Obj.t Js.flag)
    (fields : list GraphQLField) (duringCheck : list string)
  : option (bool * list string) :=
  match fields with
  | [] => Some (false, duringCheck)
  | field :: rest =>
      let fieldType := getBaseType this (fieldType field) in
      match checked checkedBefore (name fieldType) with
      | Some v =>
          if Js.toBoolean v then Some (true, duringCheck)
          else shouldMapFields this recur type checkedBefore rest duringCheck
      | None =>
          if Obj.has (name type) (mappers (config this)) then Some (true, duringCheck)
          else
            let duringCheck1 := (duringCheck ++ [name type])%list in
            match recur fieldType duringCheck1 with
            | None => None
            | Some (innerResult, duringCheck2) =>
                if Js.toBoolean innerResult then Some (true, duringCheck2)
                else shouldMapFields this recur type checkedBefore rest duringCheck2
            end
      end
  end.

(** [shouldMapType], with the recursion depth bounded by [fuel]: [None] when
    the fuel runs out, otherwise the value returned and the [duringCheck]
    array as the call leaves it.  The value is what line 235 reads from
    [checkedBefore], or a boolean. *)
Fixpoint shouldMapTypeFuel (this : BaseResolversVisitor) (fuel : nat)
    (type : GraphQLNamedType) (checkedBefore : Obj.t Js.flag) (duringCheck : list string)
  : option (Js.flag * list string) :=
  match fuel with
  | 0 => None
  | S fuel' =>
      match checked checkedBefore (name type) with
      | Some v => Some (v, duringCheck)
      | None =>
          if Js.startsWith (name type) "__"
             || Js.truthy (Obj.get (name type) (scalars (config this)))
          then Some (Js.Boolean false, duringCheck)
          else if Obj.has (name type) (mappers (config this))
          then Some (Js.Boolean true, duringCheck)
          else if isObjectType type || isInterfaceType type
          then
            let fields := getFields type in
            let kept :=
              filter (fun field =>
                        let fieldType := getBaseType this (fieldType field) in
                        negb (Js.arrayIncludes duringCheck (name fieldType)))
                     fields in
            match shouldMapFields this
                    (fun t dc => shouldMapTypeFuel this fuel' t checkedBefore dc)
                    type checkedBefore kept duringCheck with
            | Some (b, duringCheck') => Some (Js.Boolean b, duringCheck')
            | None => None
            end
          else Some (Js.Boolean false, duringCheck)
      end
  end.

(** Fuel that always suffices: twice the number of types, and three. *)
Definition shouldMapTypeDepth (this : BaseResolversVisitor) : nat :=
  2 * List.length (Obj.keys (_schema this)) + 3.

(** [shouldMapType(type, checkedBefore, duringCheck)]. *)
Definition shouldMapType (this : BaseResolversVisitor) (type : GraphQLNamedType)
    (checkedBefore : Obj.t Js.flag) (duringCheck : list string) : Js.flag :=
  match shouldMapTypeFuel this (shouldMapTypeDepth this) type checkedBefore duringCheck with
  | Some (v, _) => v
  | None => Js.Boolean false
  end.

(** The first loop of [createResolversFields]: [nestedMapping], filled one
    type at a time, each call starting from a fresh [duringCheck]. *)
Definition buildNestedMapping (this : BaseResolversVisitor) : Obj.t Js.flag :=
  fold_left
    (fun nestedMapping typeName =>
       let schemaType := getType this typeName in
       Plain.set typeName (shouldMapType this schemaType nestedMapping []) nestedMapping)
    (Obj.keys (_schema this)) [].

(** The truthiness of [nestedMapping[n]]. *)
Definition marked (nestedMapping : Obj.t Js.flag) (n : string) : bool :=
  match checked nestedMapping n with
  | Some v => Js.toBoolean v
  | None => false
  end.

(* ================================================================== *)
(** ** The table builder: [createResolversFields] *)

Definition markMapperAsUsed (n : string) (usedMappers : Obj.t bool) : Obj.t bool :=
  Plain.set n true usedMappers.

(** [!!(config.defaultMapper && config.defaultMapper.type)]. *)
Definition hasDefaultMapper (this : BaseResolversVisitor) : bool :=
  match defaultMapper (config this) with
  | Some m => Js.truthy (Some (type m))
  | None => false
  end.

(** [config.defaultMapper.type], read only where [hasDefaultMapper] holds. *)
Definition defaultMapperType (this : BaseResolversVisitor) : string :=
  match defaultMapper (config this) with
  | Some m => type m
  | None => EmptyString
  end.

(** [prev[typeName]], read only after the iteration has written it: the
    names that start with [__] are skipped, so that every assignment to
    [prev[typeName]] writes an own property, which the reads then find. *)
Definition readEntry (prev : ResolverTypes) (typeName : string) : string :=
  match Obj.get typeName prev with
  | Some s => s
  | None => EmptyString
  end.

(** The [relevantFields] of the field-level override: [.map] to an entry or
    [null], then [.filter(a => a)]. *)
Definition relevantFieldOf (this : BaseResolversVisitor) (nestedMapping : Obj.t Js.flag)
    (field : GraphQLField) : option RelevantField :=
  let baseType := getBaseType this (fieldType field) in
  let isUnion := isUnionType baseType in
  if negb (Obj.has (name baseType) (mappers (config this)))
     && negb isUnion
     && negb (marked nestedMapping (name baseType))
  then None
  else
    let addOptionalSign :=
      negb (avoidOptionals (config this)) && negb (isNonNullType (fieldType field)) in
    Some {| addOptionalSign := addOptionalSign;
            relevantName := fieldName field;
            replaceWithType :=
              wrapTypeWithModifiers (getTypeToUse this (name baseType)) (fieldType field) |}.

Definition relevantFieldsOf (this : BaseResolversVisitor) (nestedMapping : Obj.t Js.flag)
    (fields : list GraphQLField) : list RelevantField :=
  flat_map (fun a => match a with Some r => [r] | None => [] end)
           (map (relevantFieldOf this nestedMapping) fields).

(** One iteration of the [reduce] of [createResolversFields]: [prev] and
    [_usedMappers] before, and after. *)
Definition resolversFieldsStep (this : BaseResolversVisitor)
    (applyWrapper clearWrapper : string -> string) (nestedMapping : Obj.t Js.flag)
    (acc : ResolverTypes * Obj.t bool) (typeName : string)
  : ResolverTypes * Obj.t bool :=
  let '(prev, used) := acc in
  if Js.startsWith typeName "__" then (prev, used)
  else
    let isRootType := Js.arrayIncludes (_rootTypeNames this) typeName in
    let isMapped := Obj.get typeName (mappers (config this)) in
    let isScalar := Js.truthy (Obj.get typeName (scalars (config this))) in
    let schemaType := getType this typeName in
    if isRootType then
      (Obj.set typeName (applyWrapper (type (rootValueType (config this)))) prev, used)
    else
      (* the precedence chain *)
      let '(shouldApplyOmit, prev, used) :=
        match (if isEnumType schemaType then Obj.get typeName (enumValues (config this))
               else None) with
        | Some ev => (false, Obj.set typeName (typeIdentifier ev) prev, used)
        | None =>
            if match isMapped with Some m => Js.truthy (Some (type m)) | None => false end
            then
              (false,
               Obj.set typeName
                 (applyWrapper (match isMapped with Some m => type m | None => EmptyString end))
                 prev,
               markMapperAsUsed typeName used)
            else if hasDefaultMapper this && negb (hasPlaceholder (defaultMapperType this))
            then (false, Obj.set typeName (applyWrapper (defaultMapperType this)) prev, used)
            else if isScalar
            then (false, Obj.set typeName (applyWrapper (_getScalar typeName)) prev, used)
            else if isUnionType schemaType
            then
              (false,
               Obj.set typeName
                 (Js.join " | " (map (fun t => getTypeToUse this t) (getTypes schemaType)))
                 prev,
               used)
            else (true, Obj.set typeName (convertName this typeName) prev, used)
        end in
      (* the field-level override *)
      let prev :=
        if (shouldApplyOmit && negb (String.eqb (readEntry prev typeName) "any")
            && isObjectType schemaType)
           || (isInterfaceType schemaType && negb (Obj.has typeName (mappers (config this))))
        then
          let fields := getFields schemaType in
          let relevantFields := relevantFieldsOf this nestedMapping fields in
          if (0 <? List.length relevantFields)%nat
          then Obj.set typeName
                 (applyWrapper (replaceFieldsInType (readEntry prev typeName) relevantFields))
                 prev
          else Obj.set typeName (applyWrapper (readEntry prev typeName)) prev
        else prev in
      (* the placeholder of an explicit mapper *)
      let prev :=
        if Obj.has typeName (mappers (config this)) && hasPlaceholder (readEntry prev typeName)
        then Obj.set typeName (replacePlaceholder (readEntry prev typeName) typeName) prev
        else prev in
      (* the placeholder of the default mapper *)
      let prev :=
        if negb (Obj.has typeName (mappers (config this)))
           && hasDefaultMapper this && hasPlaceholder (defaultMapperType this)
        then
          let name :=
            clearWrapper (if isScalar then _getScalar typeName else readEntry prev typeName) in
          let replaced := replacePlaceholder (defaultMapperType this) name in
          if isUnionType schemaType
          then Obj.set typeName replaced prev
          else Obj.set typeName
                 (applyWrapper (replacePlaceholder (defaultMapperType this) name)) prev
        else prev in
      (prev, used).

(** [createResolversFields(applyWrapper, clearWrapper)], with [_usedMappers]
    before and after. *)
Definition createResolversFields (this : BaseResolversVisitor)
    (applyWrapper clearWrapper : string -> string) (used : Obj.t bool)
  : ResolverTypes * Obj.t bool :=
  let nestedMapping := buildNestedMapping this in
  fold_left (resolversFieldsStep this applyWrapper clearWrapper nestedMapping)
            (Obj.keys (_schema this)) ([], used).

(** What the constructor computes: both tables, and the mappers they used. *)
Definition construct (this : BaseResolversVisitor) : VisitorState :=
  let '(resolversTypes, used1) :=
    createResolversFields this applyResolverTypeWrapper clearResolverTypeWrapper [] in
  let '(resolversParentTypes, used2) :=
    createResolversFields this (fun t => t) (fun t => t) used1 in
  {| _usedMappers := used2;
     _resolversTypes := resolversTypes;
     _resolversParentTypes := resolversParentTypes |}.

(** The getter [unusedMappers].  [_usedMappers] is created by [{}]: under a
    name of [Object.prototype] that was never marked, [_usedMappers[name]] is
    the inherited member, which is truthy. *)
Definition unusedMappers (this : BaseResolversVisitor) (st : VisitorState) : list string :=
  filter (fun n => negb (match Plain.get n (_usedMappers st) with
                         | Plain.Own b => b
                         | Plain.Inherited => true
                         | Plain.Undefined => false
                         end))
         (Obj.keys (mappers (config this))).

(* ================================================================== *)
(** ** One iteration, read as a function of the type name *)

(** The iteration of [typeName] takes the explicit-mapper branch of the
    precedence chain, the only caller of [markMapperAsUsed]. *)
Definition marksMapper (this : BaseResolversVisitor) (typeName : string) : bool :=
  negb (Js.startsWith typeName "__")
  && negb (Js.arrayIncludes (_rootTypeNames this) typeName)
  && negb (isEnumType (getType this typeName)
           && Obj.has typeName (enumValues (config this)))
  && match Obj.get typeName (mappers (config this)) with
     | Some m => Js.truthy (Some (type m))
     | None => false
     end.

(** The value the iteration of [typeName] leaves in [prev[typeName]], with
    the assignments to [prev[typeName]] read as assignments to a local
    [entry] ([resolversFieldsStep_entry] proves the two agree). *)
Definition resolveEntry (this : BaseResolversVisitor)
    (applyWrapper clearWrapper : string -> string) (nestedMapping : Obj.t Js.flag)
    (typeName : string) : string :=
  let isMapped := Obj.get typeName (mappers (config this)) in
  let isScalar := Js.truthy (Obj.get typeName (scalars (config this))) in
  let schemaType := getType this typeName in
  if Js.arrayIncludes (_rootTypeNames this) typeName
  then applyWrapper (type (rootValueType (config this)))
  else
    let '(shouldApplyOmit, entry) :=
      match (if isEnumType schemaType then Obj.get typeName (enumValues (config this))
             else None) with
      | Some ev => (false, typeIdentifier ev)
      | None =>
          if match isMapped with Some m => Js.truthy (Some (type m)) | None => false end
          then (false,
                applyWrapper (match isMapped with Some m => type m | None => EmptyString end))
          else if hasDefaultMapper this && negb (hasPlaceholder (defaultMapperType this))
          then (false, applyWrapper (defaultMapperType this))
          else if isScalar
          then (false, applyWrapper (_getScalar typeName))
          else if isUnionType schemaType
          then (false,
                Js.join " | " (map (fun t => getTypeToUse this t) (getTypes schemaType)))
          else (true, convertName this typeName)
      end in
    let entry :=
      if (shouldApplyOmit && negb (String.eqb entry "any") && isObjectType schemaType)
         || (isInterfaceType schemaType && negb (Obj.has typeName (mappers (config this))))
      then
        let relevantFields := relevantFieldsOf this nestedMapping (getFields schemaType) in
        if (0 <? List.length relevantFields)%nat
        then applyWrapper (replaceFieldsInType entry relevantFields)
        else applyWrapper entry
      else entry in
    let entry :=
      if Obj.has typeName (mappers (config this)) && hasPlaceholder entry
      then replacePlaceholder entry typeName
      else entry in
    if negb (Obj.has typeName (mappers (config this)))
       && hasDefaultMapper this && hasPlaceholder (defaultMapperType this)
    then
      let name := clearWrapper (if isScalar then _getScalar typeName else entry) in
      if isUnionType schemaType
      then replacePlaceholder (defaultMapperType this) name
      else applyWrapper (replacePlaceholder (defaultMapperType this) name)
    else entry.

(** A field is given a replacement entry: its base type has an explicit
    mapper, or is marked in [nestedMapping], or is a union. *)
Definition fieldNeedsOverride (this : BaseResolversVisitor) (nestedMapping : Obj.t Js.flag)
    (f : GraphQLField) : bool :=
  Obj.has (getBaseTypeName (fieldType f)) (mappers (config this))
  || marked nestedMapping (getBaseTypeName (fieldType f))
  || isUnionType (getBaseType this (fieldType f)).


(** The expression a modifier chain stands for, read off the chain: a
    nullable position carries [Maybe], a non-null position does not, and the
    items of a list have a position of their own. *)
Fixpoint modifiersExpression (nullable : bool) (base : string) (t : GraphQLOutputType)
  : string :=
  match t with
  | GraphQLNamed _ => if nullable then applyMaybe base else base
  | GraphQLList t' =>
      let list := "Array<" ++ modifiersExpression true base t' ++ ">" in
      if nullable then applyMaybe list else list
  | GraphQLNonNull t' => modifiersExpression false base t'
  end.

(** The keys of both tables: the non-introspection type names, in the order
    of the type map. *)
Definition tableKeys (this : BaseResolversVisitor) : list string :=
  filter (fun n => negb (Js.startsWith n "__")) (Obj.keys (_schema this)).

(* ================================================================== *)
(** ** Measures of the termination proof *)

(** How many names of [universe] the array [duringCheck] does not hold. *)
Definition unvisited (universe duringCheck : list string) : nat :=
  List.length (filter (fun u => negb (Js.arrayIncludes duringCheck u)) universe).

(** Fuel that suffices for [shouldMapType] on the type named [n] when it is
    entered with [duringCheck]. *)
Definition shouldMapTypeCost (this : BaseResolversVisitor) (n : string)
    (duringCheck : list string) : nat :=
  2 * unvisited (Obj.keys (_schema this)) (n :: duringCheck) + 2
  + (if Js.arrayIncludes duringCheck n then 0 else 1).

(* ================================================================== *)
(** ** Tactics *)

Create Rewrite HintDb entries.

(** The list of names behind [Js.inObjectPrototype] is unfolded on
    request only. *)
Arguments Js.inObjectPrototype : simpl never.

(** Case analysis on a condition that holds no other condition. *)
Ltac case_innermost_if :=
  match goal with
  | |- context [if ?c then _ else _] =>
      lazymatch c with
      | context [if _ then _ else _] => fail
      | _ => destruct c
      end
  end.

(** Runs both sides of an equation between two readings of one iteration;
    the database [entries] holds the laws of reading and writing an entry. *)
Ltac run_iteration :=
  repeat (autorewrite with entries; cbv beta iota zeta; case_innermost_if);
  autorewrite with entries; reflexivity.

(* ================================================================== *)
(** ** A sample schema and sample configurations *)

(** A mapper given as a bare expression (no [module#Identifier]). *)
Definition literalMapper (expr : string) : ParsedMapper :=
  {| isExternal := false; type := expr; source := None; default := false |}.

Definition field (n : string) (t : GraphQLOutputType) : GraphQLField :=
  {| fieldName := n; fieldType := t |}.

(** [[
  type Query { me: User }
  type User { id: ID!  friends: [User!]! }
  type Post { author: User  title: String  found: [SearchResult] }
  union SearchResult = User | Post
  type A { b: B }
  type B { a: A }
  scalar String   scalar ID
]]
    and one introspection type. *)
Definition sampleTypeMap : Obj.t TypeKind :=
  [ ("Query", ObjectKind [field "me" (GraphQLNamed "User")]);
    ("User", ObjectKind
               [field "id" (GraphQLNonNull (GraphQLNamed "ID"));
                field "friends"
                  (GraphQLNonNull (GraphQLList (GraphQLNonNull (GraphQLNamed "User"))))]);
    ("Post", ObjectKind
               [field "author" (GraphQLNamed "User");
                field "title" (GraphQLNamed "String");
                field "found" (GraphQLList (GraphQLNamed "SearchResult"))]);
    ("SearchResult", UnionKind ["User"; "Post"]);
    ("A", ObjectKind [field "b" (GraphQLNamed "B")]);
    ("B", ObjectKind [field "a" (GraphQLNamed "A")]);
    ("String", ScalarKind);
    ("ID", ScalarKind);
    ("__Schema", ObjectKind []) ].

Definition visitorOf (typeMap : Obj.t TypeKind) (rootTypeNames : list string)
    (mappers : Obj.t ParsedMapper) (defaultMapper : option ParsedMapper)
    (convertName : string -> string) : BaseResolversVisitor :=
  {| config :=
       {| scalars := [("String", "string"); ("ID", "string")];
          contextType := literalMapper "any";
          rootValueType := literalMapper "{}";
          mappers := mappers;
          defaultMapper := defaultMapper;
          avoidOptionals := false;
          addUnderscoreToArgsType := false;
          enumValues := [] |};
     convertName := convertName;
     _schema := typeMap;
     _rootTypeNames := rootTypeNames |}.

Definition sampleVisitor : Obj.t ParsedMapper -> option ParsedMapper ->
                           (string -> string) -> BaseResolversVisitor :=
  visitorOf sampleTypeMap ["Query"].

(** No mapper at all. *)
Definition plainVisitor : BaseResolversVisitor :=
  sampleVisitor [] None (fun n => n).

(** [mappers: { User: UserModel }]. *)
Definition mappedVisitor : BaseResolversVisitor :=
  sampleVisitor [("User", literalMapper "UserModel")] None (fun n => n).

(** [mappers: { User: UserModel }], [defaultMapper: any]. *)
Definition mappedDefaultVisitor : BaseResolversVisitor :=
  sampleVisitor [("User", literalMapper "UserModel")] (Some (literalMapper "any"))
    (fun n => n).

(** [mappers: { User: Partial<{T}> }], [defaultMapper: any]. *)
Definition placeholderMapperVisitor : BaseResolversVisitor :=
  sampleVisitor [("User", literalMapper "Partial<{T}>")] (Some (literalMapper "any"))
    (fun n => n).

(** [defaultMapper: Partial<{T}>]. *)
Definition placeholderDefaultVisitor : BaseResolversVisitor :=
  sampleVisitor [] (Some (literalMapper "Partial<{T}>")) (fun n => n).

(** [mappers: { User: Partial<{T}> }] under a naming convention that changes
    names ([typesPrefix: I]). *)
Definition prefixedVisitor : BaseResolversVisitor :=
  sampleVisitor [("User", literalMapper "Partial<{T}>")] None (fun n => "I" ++ n).

(** [defaultMapper: Partial<{T}>] under the same naming convention. *)
Definition prefixedDefaultVisitor : BaseResolversVisitor :=
  sampleVisitor [] (Some (literalMapper "Partial<{T}>")) (fun n => "I" ++ n).

(** [[
  interface Node { owner: User }
  type User { id: ID! }
]]
    with [mappers: { User: UserModel }] and [defaultMapper: any]. *)
Definition interfaceVisitor : BaseResolversVisitor :=
  visitorOf
    [ ("Node", InterfaceKind [field "owner" (GraphQLNamed "User")]);
      ("User", ObjectKind [field "id" (GraphQLNonNull (GraphQLNamed "ID"))]);
      ("ID", ScalarKind) ]
    []
    [("User", literalMapper "UserModel")] (Some (literalMapper "any")) (fun n => n).

(** A text of two lines, the second of which opens a wrapper. *)
Definition twoLines : string :=
  "a" ++ String Js.LF "ResolverTypeWrapper<b".

(* ================================================================== *)
(** ** The imports of external mappers: [mappersImports] *)

(** An element of a group of [groupedMappers]. *)
Record MapperImport : Type := {
  identifier : string;
  asDefault : bool
}.

(** [mapper.source] as a property key and inside a template literal: a
    missing source reads [undefined]. *)
Definition sourceOf (m : ParsedMapper) : string :=
  match source m with
  | Some s => s
  | None => "undefined"
  end.

(** [group.find(m => m.identifier === name)]. *)
Definition findIdentifier (group : list MapperImport) (name : string)
  : option MapperImport :=
  find (fun m => String.eqb (identifier m) name) group.

(** The closure [addMapper] of [mappersImports], with [groupedMappers]
    before and after: the group of [source] is created when
    [groupedMappers[source]] is falsy, and the identifier is pushed unless
    the group [find]s it.  [groupedMappers] is created by [{}]: under a name
    of [Object.prototype] it answers the inherited member, which is truthy
    and has no method [find], so that the call of [find] throws a
    [TypeError]. *)
Definition addMapper (groupedMappers : Obj.t (list MapperImport))
    (source identifier : string) (asDefault : bool)
  : Js.completion (Obj.t (list MapperImport)) :=
  let groupedMappers :=
    match Plain.get source groupedMappers with
    | Plain.Undefined => Obj.set source [] groupedMappers
    | Plain.Own _ | Plain.Inherited => groupedMappers
    end in
  match Plain.get source groupedMappers with
  | Plain.Own group =>
      match findIdentifier group identifier with
      | None =>
          Js.Returns
            (Obj.set source
               (group ++ [{| identifier := identifier; asDefault := asDefault |}])%list
               groupedMappers)
      | Some _ => Js.Returns groupedMappers
      end
  | Plain.Inherited | Plain.Undefined => Js.Throws
  end.

(** What [addMapper] leaves in [groupedMappers] when it returns. *)
Definition addToGroup (groupedMappers : Obj.t (list MapperImport))
    (source identifier : string) (asDefault : bool) : Obj.t (list MapperImport) :=
  match Obj.get source groupedMappers with
  | None =>
      Obj.set source [{| identifier := identifier; asDefault := asDefault |}]
        groupedMappers
  | Some group =>
      match findIdentifier group identifier with
      | None =>
          Obj.set source
            (group ++ [{| identifier := identifier; asDefault := asDefault |}])%list
            groupedMappers
      | Some _ => groupedMappers
      end
  end.

(** [groupedMappers] as [mappersImports] has filled it before it returns.
    [stripMapperTypeInterpolation] of [./utils] is not among the sources and
    is a parameter. *)
Definition groupMappers (this : BaseResolversVisitor)
    (stripMapperTypeInterpolation : string -> string)
  : Js.completion (Obj.t (list MapperImport)) :=
  let externalNames :=
    filter (fun gqlTypeName =>
              match Obj.get gqlTypeName (mappers (config this)) with
              | Some m => isExternal m
              | None => false
              end)
           (Obj.keys (mappers (config this))) in
  let grouped :=
    fold_left
      (fun grouped gqlTypeName =>
         Js.andThen grouped (fun grouped =>
           match Obj.get gqlTypeName (mappers (config this)) with
           | Some mapper =>
               let identifier := stripMapperTypeInterpolation (type mapper) in
               addMapper grouped (sourceOf mapper) identifier (default mapper)
           | None => Js.Returns grouped
           end))
      externalNames (Js.Returns []) in
  let grouped :=
    Js.andThen grouped (fun grouped =>
      if isExternal (contextType (config this))
      then addMapper grouped (sourceOf (contextType (config this)))
             (type (contextType (config this))) (default (contextType (config this)))
      else Js.Returns grouped) in
  let grouped :=
    Js.andThen grouped (fun grouped =>
      if isExternal (rootValueType (config this))
      then addMapper grouped (sourceOf (rootValueType (config this)))
             (type (rootValueType (config this))) (default (rootValueType (config this)))
      else Js.Returns grouped) in
  Js.andThen grouped (fun grouped =>
    match defaultMapper (config this) with
    | Some d =>
        if isExternal d
        then addMapper grouped (sourceOf d) (stripMapperTypeInterpolation (type d))
               (default d)
        else Js.Returns grouped
    | None => Js.Returns grouped
    end).

Definition buildMapperImport (source : string) (types : list MapperImport) : string :=
  if match types with
     | t0 :: _ => asDefault t0
     | [] => false
     end
  then "import " ++ match types with t0 :: _ => identifier t0 | [] => EmptyString end
       ++ " from '" ++ source ++ "';"
  else "import { " ++ Js.join ", " (map identifier types) ++ " } from '" ++ source ++ "';".

(** [groupedMappers[source]] for a key [Object.keys] has listed. *)
Definition groupOf (groupedMappers : Obj.t (list MapperImport)) (source : string)
  : list MapperImport :=
  match Obj.get source groupedMappers with
  | Some types => types
  | None => []
  end.

(** The getter [mappersImports]. *)
Definition mappersImports (this : BaseResolversVisitor)
    (stripMapperTypeInterpolation : string -> string) : Js.completion (list string) :=
  Js.andThen (groupMappers this stripMapperTypeInterpolation) (fun groupedMappers =>
    Js.Returns
      (map (fun source => buildMapperImport source (groupOf groupedMappers source))
           (Plain.keys groupedMappers))).

(** The external descriptors [mappersImports] adds, in the order it adds
    them: source, identifier, default flag. *)
Definition externalDescriptors (this : BaseResolversVisitor)
    (stripMapperTypeInterpolation : string -> string) : list (string * string * bool) :=
  (flat_map
     (fun gqlTypeName =>
        match Obj.get gqlTypeName (mappers (config this)) with
        | Some m =>
            if isExternal m
            then [(sourceOf m, stripMapperTypeInterpolation (type m), default m)]
            else []
        | None => []
        end)
     (Obj.keys (mappers (config this)))
   ++ (if isExternal (contextType (config this))
       then [(sourceOf (contextType (config this)), type (contextType (config this)),
              default (contextType (config this)))]
       else [])
   ++ (if isExternal (rootValueType (config this))
       then [(sourceOf (rootValueType (config this)), type (rootValueType (config this)),
              default (rootValueType (config this)))]
       else [])
   ++ match defaultMapper (config this) with
      | Some d =>
          if isExternal d
          then [(sourceOf d, stripMapperTypeInterpolation (type d), default d)]
          else []
      | None => []
      end)%list.

(** Some descriptor of [ds] names a source that [groupedMappers] inherits
    from [Object.prototype]. *)
Definition inheritedSource (ds : list (string * string * bool)) : bool :=
  existsb (fun x => Js.inObjectPrototype (fst (fst x))) ds.

(** Every group is non-empty and names no identifier twice; no source has
    two groups. *)
Definition wellGrouped (g : Obj.t (list MapperImport)) : Prop :=
  NoDup (map fst g)
  /\ forall s group, Obj.get s g = Some group ->
                     group <> [] /\ NoDup (map identifier group).

(** The identifier [i] is imported from [s]. *)
Definition imports (g : Obj.t (list MapperImport)) (s i : string) : Prop :=
  exists group, Obj.get s g = Some group /\ In i (map identifier group).

(* ================================================================== *)
(** ** Reachability in the type graph *)

(** Where the memo table has no answer, [shouldMapType] answers [false] for
    the type named [n] before it looks at its mapper or its fields. *)
Definition blockedType (this : BaseResolversVisitor) (n : string) : bool :=
  Js.startsWith n "__" || Js.truthy (Obj.get n (scalars (config this))).

(** The lookup of the type named [n] in the dependency table is to be
    truthy: [n] is a name of [Object.prototype], which the table answers
    with the inherited member; or [n] has an explicit mapper; or one of its
    fields has such a type as base type.  Introspection types and configured
    scalars, unless they bear a name of [Object.prototype], neither count nor
    lead anywhere. *)
Inductive requiresMapping (this : BaseResolversVisitor) : string -> Prop :=
| requires_inherited (n : string) :
    Js.inObjectPrototype n = true ->
    requiresMapping this n
| requires_here (n : string) :
    blockedType this n = false ->
    Obj.has n (mappers (config this)) = true ->
    requiresMapping this n
| requires_field (n : string) (f : GraphQLField) :
    blockedType this n = false ->
    In f (getFields (getType this n)) ->
    requiresMapping this (getBaseTypeName (fieldType f)) ->
    requiresMapping this n.

(** Bookkeeping of the search [shouldMapType] performs, for a memo table
    [cb] and the array [duringCheck]: a type is settled when it is on the
    array or its memoized answer is falsy; dead when the table has no answer
    for it and it is blocked, or unmapped with settled fields only; closed
    when the table has no answer for it and it is blocked, or unmapped with
    settled or dead fields only. *)
Definition settled (cb : Obj.t Js.flag) (duringCheck : list string) (w : string) : Prop :=
  In w duringCheck \/ exists v, checked cb w = Some v /\ Js.toBoolean v = false.

Definition dead (this : BaseResolversVisitor) (cb : Obj.t Js.flag)
    (duringCheck : list string) (w : string) : Prop :=
  checked cb w = None
  /\ (blockedType this w = true
      \/ (Obj.has w (mappers (config this)) = false
          /\ forall f, In f (getFields (getType this w)) ->
                       settled cb duringCheck (getBaseTypeName (fieldType f)))).

Definition closed (this : BaseResolversVisitor) (cb : Obj.t Js.flag)
    (duringCheck : list string) (z : string) : Prop :=
  checked cb z = None
  /\ (blockedType this z = true
      \/ (Obj.has z (mappers (config this)) = false
          /\ forall f, In f (getFields (getType this z)) ->
                       settled cb duringCheck (getBaseTypeName (fieldType f))
                       \/ dead this cb duringCheck (getBaseTypeName (fieldType f)))).

(* ================================================================== *)
(** ** Variations of a type and of a visitor *)

(** [t] with the fields [fields] in place of its own. *)
Definition withFields (t : GraphQLNamedType) (fields : list GraphQLField)
  : GraphQLNamedType :=
  {| name := name t;
     kind := match kind t with
             | ObjectKind _ => ObjectKind fields
             | InterfaceKind _ => InterfaceKind fields
             | k => k
             end |}.

(** The visitor with another default mapper, or with none. *)
Definition withDefaultMapper (this : BaseResolversVisitor) (d : option ParsedMapper)
  : BaseResolversVisitor :=
  {| config :=
       {| scalars := scalars (config this);
          contextType := contextType (config this);
          rootValueType := rootValueType (config this);
          mappers := mappers (config this);
          defaultMapper := d;
          avoidOptionals := avoidOptionals (config this);
          addUnderscoreToArgsType := addUnderscoreToArgsType (config this);
          enumValues := enumValues (config this) |};
     convertName := convertName this;
     _schema := _schema this;
     _rootTypeNames := _rootTypeNames this |}.

(* ================================================================== *)
(** ** Tests on texts, for the statements about placeholders and wrappers *)

(** The character [c] occurs in [s]. *)
Fixpoint containsChar (c : ascii) (s : string) : bool :=
  match s with
  | EmptyString => false
  | String x r => Ascii.eqb x c || containsChar c r
  end.

(** The last character of [s] is [c]. *)
Definition endsWithChar (c : ascii) (s : string) : bool :=
  match Js.splitLast s with
  | Some (_, l) => Ascii.eqb l c
  | None => false
  end.

(* ================================================================== *)
(** ** More sample configurations *)

(** A mapper imported from a module: [module#Identifier], or
    [module#default] with [isDefault]. *)
Definition externalMapper (module identifier : string) (isDefault : bool) : ParsedMapper :=
  {| isExternal := true; type := identifier; source := Some module; default := isDefault |}.

(** [[
  mappers:
    User: ./models#UserModel
    Post: ./models#PostModel
    A: ./a#default
    B: Partial<{T}>
  contextType: ./context#Context
]] *)
Definition importingVisitor : BaseResolversVisitor :=
  {| config :=
       {| scalars := [("String", "string"); ("ID", "string")];
          contextType := externalMapper "./context" "Context" false;
          rootValueType := literalMapper "{}";
          mappers := [("User", externalMapper "./models" "UserModel" false);
                      ("Post", externalMapper "./models" "PostModel" false);
                      ("A", externalMapper "./a" "AModel" true);
                      ("B", literalMapper "Partial<{T}>")];
          defaultMapper := None;
          avoidOptionals := false;
          addUnderscoreToArgsType := false;
          enumValues := [] |};
     convertName := fun n => n;
     _schema := sampleTypeMap;
     _rootTypeNames := ["Query"] |}.

(** [[
  enum Color { RED GREEN }
  type Paint { color: Color }
  scalar Date
]]
    with [enumValues: { Color: ColorEnum }], a configured scalar [Date] and
    the given default mapper. *)
Definition enumVisitor (defaultMapper : option ParsedMapper) : BaseResolversVisitor :=
  {| config :=
       {| scalars := [("Date", "any")];
          contextType := literalMapper "any";
          rootValueType := literalMapper "{}";
          mappers := [];
          defaultMapper := defaultMapper;
          avoidOptionals := false;
          addUnderscoreToArgsType := false;
          enumValues := [("Color", {| typeIdentifier := "ColorEnum"; sourceFile := None |})] |};
     convertName := fun n => n;
     _schema := [("Color", EnumKind);
                 ("Paint", ObjectKind [field "color" (GraphQLNamed "Color")]);
                 ("Date", ScalarKind)];
     _rootTypeNames := [] |}.

(** [[
  type Post { c: constructor  title: String }
  type constructor { id: ID }
  scalar String   scalar ID
]]
    with no mapper at all: a type that bears a name of [Object.prototype]. *)
Definition inheritedNameVisitor : BaseResolversVisitor :=
  visitorOf
    [ ("Post", ObjectKind [field "c" (GraphQLNamed "constructor");
                           field "title" (GraphQLNamed "String")]);
      ("constructor", ObjectKind [field "id" (GraphQLNamed "ID")]);
      ("String", ScalarKind);
      ("ID", ScalarKind) ]
    [] [] None (fun n => n).

(** [mappers: { Ghost: GhostModel, valueOf: ValueModel }] over the sample
    schema, which has neither type: both mappers are registered and never
    used. *)
Definition ghostVisitor : BaseResolversVisitor :=
  sampleVisitor [("Ghost", literalMapper "GhostModel");
                 ("valueOf", literalMapper "ValueModel")] None (fun n => n).

(** [[
  mappers:
    User: ./models#UserModel
    Post: 7#PostModel
    A: 3#AModel
]] *)
Definition indexedSourceVisitor : BaseResolversVisitor :=
  sampleVisitor [("User", externalMapper "./models" "UserModel" false);
                 ("Post", externalMapper "7" "PostModel" false);
                 ("A", externalMapper "3" "AModel" false)] None (fun n => n).

(** [mappers: { User: constructor#UserModel }]: a module that bears a name
    of [Object.prototype]. *)
Definition inheritedSourceVisitor : BaseResolversVisitor :=
  sampleVisitor [("User", externalMapper "constructor" "UserModel" false)] None
    (fun n => n).

(* ================================================================== *)
(** * Properties *)

(** ** Strings *)

Section StringFacts.

Lemma prefix_app (p s : string) : String.prefix p (p ++ s) = true.
Proof.
  induction p as [|a p IH]; simpl.
  - destruct s; reflexivity.
  - destruct (ascii_dec a a) as [_|ne]; [exact IH | now elim ne].
Qed.

Lemma drop_app (p s : string) : Js.drop (String.length p) (p ++ s) = s.
Proof. induction p as [|a p IH]; simpl; [reflexivity | exact IH]. Qed.

Lemma splitLast_snoc (s : string) (c : ascii) :
  Js.splitLast (s ++ String c EmptyString) = Some (s, c).
Proof.
  induction s as [|x s IH]; simpl; [reflexivity | now rewrite IH].
Qed.

Lemma hasLineTerminator_app (a b : string) :
  Js.hasLineTerminator (a ++ b) = Js.hasLineTerminator a || Js.hasLineTerminator b.
Proof.
  induction a as [|x a IH]; simpl; [reflexivity|].
  rewrite IH. now rewrite !orb_assoc.
Qed.

(** The expression matches where a wrapped text starts, and captures what is
    wrapped, as long as that holds no line terminator. *)
Lemma matchWrappedHere_wrapped (P m : string) :
  Js.hasLineTerminator m = false ->
  Js.matchWrappedHere P (P ++ m ++ ">") = Some m.
Proof.
  intros Hm. unfold Js.matchWrappedHere.
  rewrite prefix_app, drop_app, splitLast_snoc. simpl. now rewrite Hm.
Qed.

Lemma matchWrappedHere_body (P s body : string) :
  Js.matchWrappedHere P s = Some body -> Js.hasLineTerminator body = false.
Proof.
  unfold Js.matchWrappedHere.
  destruct (String.prefix P s); [|discriminate].
  destruct (Js.splitLast _) as [[b l]|]; [|discriminate].
  destruct (Ascii.eqb l ">"); simpl; [|discriminate].
  destruct (Js.hasLineTerminator b) eqn:E; simpl; [discriminate|].
  now intros [= <-].
Qed.

Lemma replaceWrapped_wrapped (P m : string) :
  Js.hasLineTerminator m = false ->
  Js.replaceWrapped P (P ++ m ++ ">") = m.
Proof.
  intros Hm.
  assert (E := matchWrappedHere_wrapped P m Hm).
  destruct (P ++ m ++ ">") as [|c r]; simpl; now rewrite E.
Qed.

Lemma replaceWrapped_hasLineTerminator (P s : string) :
  Js.hasLineTerminator s = false ->
  Js.hasLineTerminator (Js.replaceWrapped P s) = false.
Proof.
  induction s as [|c r IH]; intros Hs.
  - simpl. destruct (Js.matchWrappedHere P "") eqn:E; [|reflexivity].
    exact (matchWrappedHere_body _ _ _ E).
  - cbn [Js.replaceWrapped].
    destruct (Js.matchWrappedHere P (String c r)) eqn:E.
    + exact (matchWrappedHere_body _ _ _ E).
    + simpl in Hs |- *.
      apply orb_false_iff in Hs as [Hc Hr]. rewrite Hc. simpl. now apply IH.
Qed.

End StringFacts.

(** ** The wrappers *)

Section Wrappers.

Lemma clearMaybe_applyMaybe (m : string) :
  Js.hasLineTerminator m = false -> clearMaybe (applyMaybe m) = m.
Proof.
  intros Hm. unfold clearMaybe, applyMaybe, Js.startsWith.
  rewrite prefix_app. now apply replaceWrapped_wrapped.
Qed.

Lemma clearMaybe_hasLineTerminator (s : string) :
  Js.hasLineTerminator s = false -> Js.hasLineTerminator (clearMaybe s) = false.
Proof.
  intros Hs. unfold clearMaybe.
  destruct (Js.startsWith s "Maybe<"); [|exact Hs].
  now apply replaceWrapped_hasLineTerminator.
Qed.

Lemma applyMaybe_hasLineTerminator (s : string) :
  Js.hasLineTerminator s = false -> Js.hasLineTerminator (applyMaybe s) = false.
Proof.
  intros Hs. unfold applyMaybe.
  rewrite !hasLineTerminator_app, Hs. reflexivity.
Qed.

Lemma clearResolverTypeWrapper_hasLineTerminator (s : string) :
  Js.hasLineTerminator s = false ->
  Js.hasLineTerminator (clearResolverTypeWrapper s) = false.
Proof.
  intros Hs. unfold clearResolverTypeWrapper.
  destruct (Js.startsWith s "ResolverTypeWrapper<"); [|exact Hs].
  now apply replaceWrapped_hasLineTerminator.
Qed.

(** Clearing undoes wrapping a text on one line. *)
Lemma clearResolverTypeWrapper_wrapped (c : string) :
  Js.hasLineTerminator c = false ->
  clearResolverTypeWrapper ("ResolverTypeWrapper<" ++ c ++ ">") = c.
Proof.
  intros Hc. unfold clearResolverTypeWrapper, Js.startsWith.
  rewrite prefix_app. now apply replaceWrapped_wrapped.
Qed.

Lemma wrapTypeWithModifiers_hasLineTerminator (base : string) (t : GraphQLOutputType) :
  Js.hasLineTerminator base = false ->
  Js.hasLineTerminator (wrapTypeWithModifiers base t) = false.
Proof.
  intros Hb. induction t as [n | t IH | t IH]; simpl.
  - now apply applyMaybe_hasLineTerminator.
  - apply applyMaybe_hasLineTerminator. now rewrite !hasLineTerminator_app, IH.
  - now apply clearMaybe_hasLineTerminator.
Qed.

End Wrappers.

(** ** Dictionaries *)

Section ObjFacts.

Context {V : Type}.
Implicit Types (o : Obj.t V) (k : string) (v : V).

Lemma get_set_same k v o : Obj.get k (Obj.set k v o) = Some v.
Proof.
  induction o as [|[k' v'] r IH]; simpl.
  - now rewrite String.eqb_refl.
  - destruct (String.eqb k' k) eqn:E; simpl; rewrite E; [reflexivity | exact IH].
Qed.

Lemma get_set_other k k' v o : k <> k' -> Obj.get k' (Obj.set k v o) = Obj.get k' o.
Proof.
  intros ne. induction o as [|[k0 v0] r IH]; simpl.
  - apply String.eqb_neq in ne. now rewrite ne.
  - destruct (String.eqb k0 k) eqn:E; simpl.
    + apply String.eqb_eq in E. subst k0.
      apply String.eqb_neq in ne. now rewrite ne.
    + now rewrite IH.
Qed.

Lemma set_set k v1 v2 o : Obj.set k v2 (Obj.set k v1 o) = Obj.set k v2 o.
Proof.
  induction o as [|[k0 v0] r IH]; simpl.
  - now rewrite String.eqb_refl.
  - destruct (String.eqb k0 k) eqn:E; simpl; rewrite E; [reflexivity | now rewrite IH].
Qed.

Lemma has_In_fst k o : Obj.has k o = true <-> In k (map fst o).
Proof.
  unfold Obj.has. induction o as [|[k0 v0] r IH]; simpl.
  - split; [discriminate | tauto].
  - destruct (String.eqb k0 k) eqn:E.
    + apply String.eqb_eq in E. tauto.
    + apply String.eqb_neq in E. rewrite IH. tauto.
Qed.

Lemma fst_set k v o :
  map fst (Obj.set k v o) = if Obj.has k o then map fst o else (map fst o ++ [k])%list.
Proof.
  unfold Obj.has. induction o as [|[k0 v0] r IH]; simpl; [reflexivity|].
  destruct (String.eqb k0 k) eqn:E; simpl; [reflexivity|].
  rewrite IH. now destruct (Obj.get k r).
Qed.

Lemma In_keys k o : In k (Obj.keys o) <-> In k (map fst o).
Proof.
  induction o as [|[k0 v0] r IH]; simpl; [tauto|].
  rewrite filter_In, IH, negb_true_iff, String.eqb_neq.
  destruct (string_dec k0 k); [tauto|]. intuition congruence.
Qed.

Lemma NoDup_keys o : NoDup (Obj.keys o).
Proof.
  induction o as [|[k0 v0] r IH]; simpl; constructor.
  - rewrite filter_In, String.eqb_refl. intros [_ H]. discriminate.
  - now apply NoDup_filter.
Qed.

Lemma keys_NoDup_fst o : NoDup (map fst o) -> Obj.keys o = map fst o.
Proof.
  induction o as [|[k0 v0] r IH]; simpl; [reflexivity|].
  intros H. inversion H as [|? ? Hin Hr]; subst.
  rewrite IH by assumption. f_equal.
  apply forallb_filter_id, forallb_forall.
  intros x Hx. apply negb_true_iff, String.eqb_neq. congruence.
Qed.

End ObjFacts.

(** ** Objects created by [{}] *)

Section PlainFacts.

Context {V : Type}.
Implicit Types (o : Obj.t V) (k : string) (v : V).

Lemma startsWith_proto k :
  Js.startsWith k "__" = false -> String.eqb k "__proto__" = false.
Proof.
  intros H. destruct (String.eqb k "__proto__") eqn:E; [|reflexivity].
  apply String.eqb_eq in E. subst k. discriminate.
Qed.

Lemma inObjectPrototype_proto k :
  Js.inObjectPrototype k = false -> String.eqb k "__proto__" = false.
Proof.
  intros H. destruct (String.eqb k "__proto__") eqn:E; [|reflexivity].
  apply String.eqb_eq in E. subst k. discriminate.
Qed.

Lemma plain_set_named k v o :
  String.eqb k "__proto__" = false -> Plain.set k v o = Obj.set k v o.
Proof. intros H. unfold Plain.set. now rewrite H. Qed.

Lemma plain_get_own k v o : Obj.get k o = Some v -> Plain.get k o = Plain.Own v.
Proof. intros H. unfold Plain.get. now rewrite H. Qed.

Lemma plain_get_undefined k o :
  Plain.get k o = Plain.Undefined <->
  Obj.get k o = None /\ Js.inObjectPrototype k = false.
Proof.
  unfold Plain.get. destruct (Obj.get k o); [split; [discriminate | intros [? _]; discriminate]|].
  destruct (Js.inObjectPrototype k); split; try discriminate; try tauto.
  intros [_ ?]. discriminate.
Qed.

End PlainFacts.

Lemma readEntry_set (k v : string) (prev : ResolverTypes) :
  readEntry (Obj.set k v prev) k = v.
Proof. unfold readEntry. now rewrite get_set_same. Qed.

#[local] Hint Rewrite readEntry_set : entries.
#[local] Hint Rewrite (@set_set string) : entries.

(** ** The iteration of [createResolversFields] *)

Lemma arrayIncludes_In (xs : list string) (x : string) :
  Js.arrayIncludes xs x = true <-> In x xs.
Proof.
  unfold Js.arrayIncludes. rewrite existsb_exists. split.
  - intros (y & Hy & E). apply String.eqb_eq in E. now subst.
  - intros H. exists x. now rewrite String.eqb_refl.
Qed.

Section Reduce.

Variable this : BaseResolversVisitor.
Variables applyWrapper clearWrapper : string -> string.
Variable nestedMapping : Obj.t Js.flag.

Local Abbreviation step :=
  (resolversFieldsStep this applyWrapper clearWrapper nestedMapping).
Local Abbreviation entry :=
  (resolveEntry this applyWrapper clearWrapper nestedMapping).

(** One iteration writes one key, [typeName], and marks at most that name. *)
Lemma resolversFieldsStep_entry (prev : ResolverTypes) (used : Obj.t bool)
    (typeName : string) :
  step (prev, used) typeName =
  (if Js.startsWith typeName "__" then prev else Obj.set typeName (entry typeName) prev,
   if marksMapper this typeName then markMapperAsUsed typeName used else used).
Proof.
  unfold resolversFieldsStep, resolveEntry, marksMapper.
  destruct (Js.startsWith typeName "__"); [reflexivity|].
  destruct (Js.arrayIncludes (_rootTypeNames this) typeName); [reflexivity|].
  cbn [negb andb].
  unfold Obj.has.
  destruct (isEnumType (getType this typeName)); cbn [andb];
    [destruct (Obj.get typeName (enumValues (config this))) as [ev|] |];
    destruct (Obj.get typeName (mappers (config this))) as [m|]; cbn [negb andb];
    run_iteration.
Qed.

(** The names whose mapper is marked do not start with [__]: marking writes
    an own property. *)
Lemma markMapperAsUsed_marked (typeName : string) (used : Obj.t bool) :
  marksMapper this typeName = true ->
  markMapperAsUsed typeName used = Obj.set typeName true used.
Proof.
  unfold marksMapper, markMapperAsUsed. intros H.
  apply plain_set_named, startsWith_proto.
  destruct (Js.startsWith typeName "__"); [discriminate | reflexivity].
Qed.

Lemma fold_step_get (ks : list string) (prev : ResolverTypes) (used : Obj.t bool)
    (typeName : string) :
  Obj.get typeName (fst (fold_left step ks (prev, used))) =
  if Js.arrayIncludes ks typeName && negb (Js.startsWith typeName "__")
  then Some (entry typeName)
  else Obj.get typeName prev.
Proof.
  revert prev used. induction ks as [|k ks IH]; intros prev used; [reflexivity|].
  cbn [fold_left]. rewrite resolversFieldsStep_entry, IH.
  unfold Js.arrayIncludes. cbn [existsb].
  destruct (String.eqb typeName k) eqn:E.
  - apply String.eqb_eq in E. subst k. cbn [orb].
    destruct (Js.startsWith typeName "__"); cbn [negb andb].
    + now rewrite andb_false_r.
    + rewrite get_set_same. now destruct (existsb _ ks).
  - apply String.eqb_neq in E. cbn [orb].
    destruct (Js.startsWith k "__"); [reflexivity|].
    rewrite get_set_other by congruence. reflexivity.
Qed.

Lemma fold_step_used (ks : list string) (prev : ResolverTypes) (used : Obj.t bool)
    (typeName : string) :
  Obj.get typeName (snd (fold_left step ks (prev, used))) =
  if Js.arrayIncludes ks typeName && marksMapper this typeName
  then Some true
  else Obj.get typeName used.
Proof.
  revert prev used. induction ks as [|k ks IH]; intros prev used; [reflexivity|].
  cbn [fold_left]. rewrite resolversFieldsStep_entry, IH.
  unfold Js.arrayIncludes. cbn [existsb].
  destruct (String.eqb typeName k) eqn:E.
  - apply String.eqb_eq in E. subst k. cbn [orb].
    destruct (marksMapper this typeName) eqn:Hmark.
    + rewrite (markMapperAsUsed_marked _ _ Hmark), get_set_same.
      now destruct (existsb _ ks).
    + now rewrite andb_false_r.
  - apply String.eqb_neq in E. cbn [orb].
    destruct (marksMapper this k) eqn:Hmark; [|reflexivity].
    rewrite (markMapperAsUsed_marked _ _ Hmark), get_set_other by congruence.
    reflexivity.
Qed.

Lemma fold_step_fst (ks : list string) (prev : ResolverTypes) (used : Obj.t bool) :
  NoDup ks ->
  (forall k, In k ks -> ~ In k (map fst prev)) ->
  map fst (fst (fold_left step ks (prev, used))) =
  (map fst prev ++ filter (fun n => negb (Js.startsWith n "__")) ks)%list.
Proof.
  revert prev used. induction ks as [|k ks IH]; intros prev used Hnd Hfresh.
  - cbn. now rewrite app_nil_r.
  - inversion Hnd as [|? ? Hk Hks]; subst.
    cbn [fold_left filter]. rewrite resolversFieldsStep_entry.
    destruct (Js.startsWith k "__"); cbn [negb].
    + apply IH; [assumption|]. intros x Hx. apply Hfresh. now right.
    + rewrite IH; [|assumption|].
      * rewrite fst_set.
        destruct (Obj.has k prev) eqn:Hh.
        -- apply has_In_fst in Hh. exfalso. apply (Hfresh k); [now left | assumption].
        -- now rewrite <- app_assoc.
      * intros x Hx. rewrite fst_set.
        destruct (Obj.has k prev).
        -- apply Hfresh. now right.
        -- rewrite in_app_iff. intros [H|[->|[]]]; [|contradiction].
           apply (Hfresh x); [now right | assumption].
Qed.

End Reduce.

(** ** [createResolversFields] and the constructor *)

Section Tables.

Variable this : BaseResolversVisitor.

Lemma createResolversFields_get (applyWrapper clearWrapper : string -> string)
    (used : Obj.t bool) (typeName : string) :
  Obj.get typeName (fst (createResolversFields this applyWrapper clearWrapper used)) =
  if Js.arrayIncludes (Obj.keys (_schema this)) typeName
     && negb (Js.startsWith typeName "__")
  then Some (resolveEntry this applyWrapper clearWrapper (buildNestedMapping this) typeName)
  else None.
Proof. unfold createResolversFields. now rewrite fold_step_get. Qed.

Lemma createResolversFields_used (applyWrapper clearWrapper : string -> string)
    (used : Obj.t bool) (typeName : string) :
  Obj.get typeName (snd (createResolversFields this applyWrapper clearWrapper used)) =
  if Js.arrayIncludes (Obj.keys (_schema this)) typeName && marksMapper this typeName
  then Some true
  else Obj.get typeName used.
Proof. unfold createResolversFields. now rewrite fold_step_used. Qed.

Lemma createResolversFields_fst (applyWrapper clearWrapper : string -> string)
    (used : Obj.t bool) :
  map fst (fst (createResolversFields this applyWrapper clearWrapper used)) = tableKeys this.
Proof.
  unfold createResolversFields.
  rewrite fold_step_fst; [reflexivity | apply NoDup_keys | intros k _ []].
Qed.

Lemma construct_resolversTypes :
  _resolversTypes (construct this) =
  fst (createResolversFields this applyResolverTypeWrapper clearResolverTypeWrapper []).
Proof.
  unfold construct.
  destruct (createResolversFields this applyResolverTypeWrapper _ _) as [rt u1].
  now destruct (createResolversFields this (fun t => t) _ _).
Qed.

Lemma construct_resolversParentTypes :
  exists used,
    _resolversParentTypes (construct this) =
    fst (createResolversFields this (fun t => t) (fun t => t) used).
Proof.
  unfold construct.
  destruct (createResolversFields this applyResolverTypeWrapper _ _) as [rt u1].
  exists u1. now destruct (createResolversFields this (fun t => t) _ _).
Qed.

Lemma construct_usedMappers :
  _usedMappers (construct this) =
  snd (createResolversFields this (fun t => t) (fun t => t)
         (snd (createResolversFields this applyResolverTypeWrapper
                 clearResolverTypeWrapper []))).
Proof.
  unfold construct.
  destruct (createResolversFields this applyResolverTypeWrapper _ _) as [rt u1].
  cbn [snd]. now destruct (createResolversFields this (fun t => t) _ _).
Qed.

(** Whether the constructor marked the mapper of [typeName]. *)
Lemma construct_used_get (typeName : string) :
  Obj.get typeName (_usedMappers (construct this)) =
  if Js.arrayIncludes (Obj.keys (_schema this)) typeName && marksMapper this typeName
  then Some true
  else None.
Proof.
  rewrite construct_usedMappers, !createResolversFields_used.
  now destruct (Js.arrayIncludes _ _ && marksMapper this typeName).
Qed.

End Tables.

(** ** Termination of [shouldMapType] *)

Section Termination.

Variable this : BaseResolversVisitor.

Lemma filter_length_le {A : Type} (f g : A -> bool) (l : list A) :
  (forall x, In x l -> f x = true -> g x = true) ->
  List.length (filter f l) <= List.length (filter g l).
Proof.
  induction l as [|a l IH]; intros H; [reflexivity|]. cbn [filter].
  assert (IH' := IH (fun x Hx => H x (or_intror Hx))).
  destruct (f a) eqn:Fa.
  - rewrite (H a (or_introl eq_refl) Fa). cbn. lia.
  - destruct (g a); cbn; lia.
Qed.

Lemma filter_length_lt {A : Type} (f g : A -> bool) (l : list A) (a : A) :
  (forall x, In x l -> f x = true -> g x = true) ->
  In a l -> f a = false -> g a = true ->
  List.length (filter f l) < List.length (filter g l).
Proof.
  induction l as [|b l IH]; intros H Ha Fa Ga; [destruct Ha|]. cbn [filter].
  assert (Hl : forall x, In x l -> f x = true -> g x = true)
    by (intros x Hx; apply H; now right).
  destruct Ha as [->|Ha].
  - rewrite Fa, Ga. cbn. apply Nat.lt_succ_r. now apply filter_length_le.
  - specialize (IH Hl Ha Fa Ga).
    destruct (f b) eqn:Fb.
    + rewrite (H b (or_introl eq_refl) Fb). cbn. lia.
    + destruct (g b); cbn; lia.
Qed.

Lemma arrayIncludes_false (xs : list string) (x : string) :
  Js.arrayIncludes xs x = false <-> ~ In x xs.
Proof.
  rewrite <- arrayIncludes_In. destruct (Js.arrayIncludes xs x); split; congruence.
Qed.

Lemma unvisited_mono (U D D' : list string) :
  incl D D' -> unvisited U D' <= unvisited U D.
Proof.
  intros Hi. apply filter_length_le. intros x _.
  rewrite !negb_true_iff, !arrayIncludes_false. intros H1 H2. apply H1, Hi, H2.
Qed.

Lemma unvisited_strict (U D D' : list string) (x : string) :
  incl D D' -> In x U -> ~ In x D -> In x D' ->
  unvisited U D' < unvisited U D.
Proof.
  intros Hi Hu Hd Hd'. apply filter_length_lt with (a := x); [|assumption| |].
  - intros y _. rewrite !negb_true_iff, !arrayIncludes_false.
    intros H1 H2. apply H1, Hi, H2.
  - apply negb_false_iff, arrayIncludes_In, Hd'.
  - apply negb_true_iff, arrayIncludes_false, Hd.
Qed.

Lemma unvisited_le (U D : list string) : unvisited U D <= List.length U.
Proof.
  unfold unvisited. induction U as [|u U IH]; cbn [filter]; [reflexivity|].
  destruct (negb _); cbn; lia.
Qed.

Lemma shouldMapTypeCost_depth (n : string) (dc : list string) :
  shouldMapTypeCost this n dc <= shouldMapTypeDepth this.
Proof.
  unfold shouldMapTypeCost, shouldMapTypeDepth.
  assert (H := unvisited_le (Obj.keys (_schema this)) (n :: dc)).
  destruct (Js.arrayIncludes dc n); lia.
Qed.

(** Entering a field's type costs less than the type it is a field of: the
    type was pushed, and the field's type was not on the array when the
    fields were filtered. *)
Lemma shouldMapTypeCost_field (X F : string) (dc dcur : list string) :
  In F (Obj.keys (_schema this)) ->
  Js.arrayIncludes dc F = false ->
  incl dc dcur ->
  shouldMapTypeCost this F (dcur ++ [X]) < shouldMapTypeCost this X dc.
Proof.
  intros HF Hnot Hi. unfold shouldMapTypeCost.
  apply arrayIncludes_false in Hnot.
  assert (Hincl : incl (X :: dc) (F :: dcur ++ [X])).
  { intros y [<-|Hy]; right; apply in_or_app; [right; now left | left; now apply Hi]. }
  destruct (string_dec F X) as [->|ne].
  - assert (E : Js.arrayIncludes (dcur ++ [X]) X = true)
      by (apply arrayIncludes_In, in_or_app; right; now left).
    rewrite E. apply arrayIncludes_false in Hnot. rewrite Hnot.
    assert (H := unvisited_mono (Obj.keys (_schema this)) _ _ Hincl). lia.
  - assert (H : unvisited (Obj.keys (_schema this)) (F :: dcur ++ [X])
                < unvisited (Obj.keys (_schema this)) (X :: dc)).
    { apply unvisited_strict with (x := F); [assumption | assumption | | now left].
      intros [E|H]; [now apply ne | now apply Hnot]. }
    destruct (Js.arrayIncludes (dcur ++ [X]) F), (Js.arrayIncludes dc X); lia.
Qed.

(** A type that is neither an object nor an interface type is answered at
    once. *)
Lemma shouldMapTypeFuel_leaf (fuel : nat) (t : GraphQLNamedType)
    (cb : Obj.t Js.flag) (dc : list string) :
  isObjectType t || isInterfaceType t = false ->
  exists v, shouldMapTypeFuel this (S fuel) t cb dc = Some (v, dc).
Proof.
  intros Hk. cbn [shouldMapTypeFuel]. rewrite Hk.
  destruct (checked cb (name t)) as [v|]; [now exists v|].
  destruct (Js.startsWith _ _ || _); [now eexists|].
  destruct (Obj.has _ _); now eexists.
Qed.

Lemma getType_not_in_schema (n : string) :
  ~ In n (Obj.keys (_schema this)) ->
  isObjectType (getType this n) || isInterfaceType (getType this n) = false.
Proof.
  intros H. unfold isObjectType, isInterfaceType, getType. cbn [kind].
  destruct (Obj.get n (_schema this)) eqn:E; [|reflexivity].
  exfalso. apply H, In_keys, has_In_fst. unfold Obj.has. now rewrite E.
Qed.

(** With enough fuel [shouldMapType] returns; the array only grows. *)
Lemma shouldMapTypeFuel_enough (fuel : nat) :
  forall (t : GraphQLNamedType) (cb : Obj.t Js.flag) (dc : list string),
    shouldMapTypeCost this (name t) dc <= fuel ->
    exists v dc', shouldMapTypeFuel this fuel t cb dc = Some (v, dc') /\ incl dc dc'.
Proof.
  induction fuel as [|fuel IH]; intros t cb dc Hcost.
  - unfold shouldMapTypeCost in Hcost. lia.
  - cbn [shouldMapTypeFuel].
    destruct (checked cb (name t)); [eauto using incl_refl|].
    destruct (_ || _); [eauto using incl_refl|].
    destruct (Obj.has _ _) eqn:Hmapped; [eauto using incl_refl|].
    destruct (isObjectType t || isInterfaceType t); [|eauto using incl_refl].
    cbv zeta.
    set (kept := filter _ (getFields t)).
    assert (Hkept : forall f, In f kept ->
              Js.arrayIncludes dc (getBaseTypeName (fieldType f)) = false).
    { intros f Hf. apply filter_In in Hf as [_ Hf]. now apply negb_true_iff in Hf. }
    clearbody kept.
    assert (Hloop : forall dcur, incl dc dcur ->
              exists b dc',
                shouldMapFields this
                  (fun t0 d => shouldMapTypeFuel this fuel t0 cb d) t cb kept dcur
                = Some (b, dc') /\ incl dcur dc').
    { induction kept as [|f rest IHrest]; intros dcur Hdcur.
      - cbn. eauto using incl_refl.
      - cbn [shouldMapFields]. cbv zeta.
        assert (Hrest : forall f0, In f0 rest ->
                  Js.arrayIncludes dc (getBaseTypeName (fieldType f0)) = false)
          by (intros f0 Hf0; apply Hkept; now right).
        destruct (checked cb (name (getBaseType this (fieldType f)))) as [v|].
        + destruct (Js.toBoolean v); [eauto using incl_refl | now apply IHrest].
        + rewrite Hmapped.
          set (F := getBaseTypeName (fieldType f)).
          assert (Hrec : exists b dc2,
                    shouldMapTypeFuel this fuel (getBaseType this (fieldType f)) cb
                      (dcur ++ [name t]) = Some (b, dc2)
                    /\ incl (dcur ++ [name t]) dc2).
          { destruct (in_dec string_dec F (Obj.keys (_schema this))) as [HF|HF].
            - apply IH. cbn [getBaseType getType name]. fold F.
              assert (Hlt := shouldMapTypeCost_field (name t) F dc dcur HF
                               (Hkept f (or_introl eq_refl)) Hdcur).
              lia.
            - destruct fuel as [|fuel'].
              + unfold shouldMapTypeCost in Hcost. lia.
              + destruct (shouldMapTypeFuel_leaf fuel' (getBaseType this (fieldType f))
                            cb (dcur ++ [name t])) as [b Hb].
                * now apply getType_not_in_schema.
                * exists b, (dcur ++ [name t])%list. split; [exact Hb | apply incl_refl]. }
          destruct Hrec as (v & dc2 & -> & Hdc2).
          assert (Hgrow : incl dcur dc2)
            by (intros y Hy; apply Hdc2, in_or_app; now left).
          destruct (Js.toBoolean v).
          * eauto.
          * destruct (IHrest Hrest dc2) as (b' & dc' & -> & Hdc').
            -- intros y Hy. now apply Hgrow, Hdcur.
            -- exists b', dc'. split; [reflexivity|].
               intros y Hy. now apply Hdc', Hgrow. }
    destruct (Hloop dc (incl_refl dc)) as (b & dc' & -> & Hdc'). eauto.
Qed.

(** More fuel does not change an answer. *)
Lemma shouldMapFields_recur
    (recur1 recur2 : GraphQLNamedType -> list string -> option (Js.flag * list string))
    (t : GraphQLNamedType) (cb : Obj.t Js.flag) (fs : list GraphQLField) :
  (forall t0 d r, recur1 t0 d = Some r -> recur2 t0 d = Some r) ->
  forall dc r,
    shouldMapFields this recur1 t cb fs dc = Some r ->
    shouldMapFields this recur2 t cb fs dc = Some r.
Proof.
  intros Hr. induction fs as [|f rest IH]; intros dc r; [trivial|].
  cbn [shouldMapFields]. cbv zeta.
  destruct (checked cb _) as [v|]; [destruct (Js.toBoolean v); [trivial | apply IH]|].
  destruct (Obj.has _ _); [trivial|].
  destruct (recur1 _ _) as [[v dc2]|] eqn:E; [|discriminate].
  rewrite (Hr _ _ _ E). destruct (Js.toBoolean v); [trivial | apply IH].
Qed.

Lemma shouldMapTypeFuel_mono (n : nat) :
  forall (m : nat) (t : GraphQLNamedType) (cb : Obj.t Js.flag) (dc : list string)
         (r : Js.flag * list string),
    n <= m ->
    shouldMapTypeFuel this n t cb dc = Some r ->
    shouldMapTypeFuel this m t cb dc = Some r.
Proof.
  induction n as [|n IH]; intros m t cb dc r Hle; [discriminate|].
  destruct m as [|m]; [lia|].
  cbn [shouldMapTypeFuel].
  destruct (checked cb (name t)); [trivial|].
  destruct (_ || _); [trivial|].
  destruct (Obj.has _ _); [trivial|].
  destruct (isObjectType t || isInterfaceType t); [|trivial].
  cbv zeta.
  destruct (shouldMapFields this (fun t0 d => shouldMapTypeFuel this n t0 cb d) _ _ _ _)
    as [[b dc']|] eqn:E; [|discriminate].
  rewrite (shouldMapFields_recur _ (fun t0 d => shouldMapTypeFuel this m t0 cb d)
             t cb _ (fun t0 d r0 => IH m t0 cb d r0 ltac:(lia)) _ _ E).
  trivial.
Qed.

End Termination.

(** ** The tables *)

Section TableEntries.

Variable this : BaseResolversVisitor.

Lemma resolversTypes_get (T : string) :
  In T (Obj.keys (_schema this)) ->
  Js.startsWith T "__" = false ->
  Obj.get T (_resolversTypes (construct this)) =
  Some (resolveEntry this applyResolverTypeWrapper clearResolverTypeWrapper
          (buildNestedMapping this) T).
Proof.
  intros Hin Hintro.
  rewrite construct_resolversTypes, createResolversFields_get, Hintro.
  apply arrayIncludes_In in Hin. now rewrite Hin.
Qed.

Lemma resolversParentTypes_get (T : string) :
  In T (Obj.keys (_schema this)) ->
  Js.startsWith T "__" = false ->
  Obj.get T (_resolversParentTypes (construct this)) =
  Some (resolveEntry this (fun t => t) (fun t => t) (buildNestedMapping this) T).
Proof.
  intros Hin Hintro.
  destruct construct_resolversParentTypes with (this := this) as [used ->].
  rewrite createResolversFields_get, Hintro.
  apply arrayIncludes_In in Hin. now rewrite Hin.
Qed.

Lemma no_enum_override (T : string) :
  isEnumType (getType this T) && Obj.has T (enumValues (config this)) = false ->
  (if isEnumType (getType this T) then Obj.get T (enumValues (config this)) else None)
  = None.
Proof.
  unfold Obj.has. destruct (isEnumType (getType this T)); [|reflexivity].
  now destruct (Obj.get T (enumValues (config this))).
Qed.

Lemma resolveEntry_root (applyWrapper clearWrapper : string -> string)
    (nestedMapping : Obj.t Js.flag) (T : string) :
  Js.arrayIncludes (_rootTypeNames this) T = true ->
  resolveEntry this applyWrapper clearWrapper nestedMapping T =
  applyWrapper (type (rootValueType (config this))).
Proof. intros H. unfold resolveEntry. now rewrite H. Qed.

Lemma resolveEntry_mapped (applyWrapper clearWrapper : string -> string)
    (nestedMapping : Obj.t Js.flag) (T : string) (m : ParsedMapper) :
  Js.arrayIncludes (_rootTypeNames this) T = false ->
  isEnumType (getType this T) && Obj.has T (enumValues (config this)) = false ->
  Obj.get T (mappers (config this)) = Some m ->
  type m <> EmptyString ->
  resolveEntry this applyWrapper clearWrapper nestedMapping T =
  if hasPlaceholder (applyWrapper (type m))
  then replacePlaceholder (applyWrapper (type m)) T
  else applyWrapper (type m).
Proof.
  intros Hroot Henum Hm Hne. unfold resolveEntry.
  rewrite Hroot, (no_enum_override T Henum). unfold Obj.has. rewrite Hm.
  assert (Ht : Js.truthy (Some (type m)) = true)
    by (cbn; now apply negb_true_iff, String.eqb_neq).
  rewrite Ht. cbn [andb negb orb]. now rewrite !andb_false_r.
Qed.

End TableEntries.

Section FieldOverride.

Variable this : BaseResolversVisitor.



(** The entry of a union type that reaches its branch of the chain. *)
Lemma resolveEntry_union (applyWrapper clearWrapper : string -> string)
    (nestedMapping : Obj.t Js.flag) (T : string) (members : list string) :
  Js.arrayIncludes (_rootTypeNames this) T = false ->
  kind (getType this T) = UnionKind members ->
  match Obj.get T (mappers (config this)) with
  | Some m => Js.truthy (Some (type m))
  | None => false
  end = false ->
  hasDefaultMapper this && negb (hasPlaceholder (defaultMapperType this)) = false ->
  Js.truthy (Obj.get T (scalars (config this))) = false ->
  resolveEntry this applyWrapper clearWrapper nestedMapping T =
  let disjunction := Js.join " | " (map (getTypeToUse this) members) in
  if Obj.has T (mappers (config this))
  then if hasPlaceholder disjunction then replacePlaceholder disjunction T
       else disjunction
  else if hasDefaultMapper this
       then replacePlaceholder (defaultMapperType this) (clearWrapper disjunction)
       else disjunction.
Proof.
  intros Hroot Hkind Hm Hd Hs. unfold resolveEntry.
  rewrite Hroot, Hs, Hm, Hd.
  unfold isEnumType, isUnionType, isObjectType, isInterfaceType, getTypes.
  rewrite Hkind. cbn [andb negb orb]. cbv zeta.
  destruct (Obj.has T (mappers (config this))); cbn [andb negb orb].
  - now destruct (hasPlaceholder _).
  - destruct (hasDefaultMapper this); cbn [andb negb orb] in *; [|reflexivity].
    apply negb_false_iff in Hd. now rewrite Hd.
Qed.

End FieldOverride.

(** ** The field type wrapper *)

Section Modifiers.

Variable base : string.
Hypothesis base_one_line : Js.hasLineTerminator base = false.

Lemma clearMaybe_nullable (t : GraphQLOutputType) :
  isNonNullType t = false ->
  exists inner,
    wrapTypeWithModifiers base t = applyMaybe inner /\
    clearMaybe (wrapTypeWithModifiers base t) = inner.
Proof.
  destruct t as [n | t | t]; [| |discriminate]; intros _; cbn [wrapTypeWithModifiers].
  - exists base. split; [reflexivity | now apply clearMaybe_applyMaybe].
  - eexists. split; [reflexivity|]. apply clearMaybe_applyMaybe.
    rewrite !hasLineTerminator_app.
    now rewrite wrapTypeWithModifiers_hasLineTerminator.
Qed.

Lemma wrapTypeWithModifiers_expression (t : GraphQLOutputType) :
  nullableAround t = true ->
  wrapTypeWithModifiers base t = modifiersExpression true base t /\
  (isNonNullType t = false ->
   clearMaybe (wrapTypeWithModifiers base t) = modifiersExpression false base t).
Proof.
  induction t as [n | t IH | t IH]; cbn [nullableAround]; intros Hwf.
  - split; [reflexivity|]. intros _. now apply clearMaybe_applyMaybe.
  - destruct (IH Hwf) as [E _].
    cbn [wrapTypeWithModifiers modifiersExpression]. rewrite E.
    split; [reflexivity|]. intros _. apply clearMaybe_applyMaybe.
    rewrite !hasLineTerminator_app, <- E.
    now rewrite wrapTypeWithModifiers_hasLineTerminator.
  - apply andb_true_iff in Hwf as [Hnn Hwf]. apply negb_true_iff in Hnn.
    destruct (IH Hwf) as [_ E].
    split; [|discriminate].
    cbn [wrapTypeWithModifiers modifiersExpression]. now apply E.
Qed.

End Modifiers.

(** The lookups the table builder wraps are on one line when the converted
    name of [ResolversTypes] and the type name are. *)
Lemma getTypeToUse_hasLineTerminator (this : BaseResolversVisitor) (n : string) :
  Js.hasLineTerminator (convertName this "ResolversTypes") = false ->
  Js.hasLineTerminator n = false ->
  Js.hasLineTerminator (getTypeToUse this n) = false.
Proof.
  intros Hc Hn. unfold getTypeToUse. cbv zeta.
  now rewrite !hasLineTerminator_app, Hc, Hn.
Qed.

(* ================================================================== *)
(** * The claims *)

(** C1.  Whatever the schema and the configuration, [ResolversTypes] and
    [ResolversParentTypes] bind the same keys, each once: the names of the
    type map that do not start with [__], in the order of the type map. *)
Theorem resolvers_tables_share_keys (this : BaseResolversVisitor) :
  map fst (_resolversTypes (construct this)) = tableKeys this /\
  map fst (_resolversParentTypes (construct this)) = tableKeys this /\
  Obj.keys (_resolversTypes (construct this))
  = Obj.keys (_resolversParentTypes (construct this)) /\
  NoDup (tableKeys this) /\
  (forall n, In n (tableKeys this) <->
             In n (Obj.keys (_schema this)) /\ Js.startsWith n "__" = false).
Proof.
  assert (Hnd : NoDup (tableKeys this)) by (apply NoDup_filter, NoDup_keys).
  assert (H1 : map fst (_resolversTypes (construct this)) = tableKeys this)
    by (rewrite construct_resolversTypes; apply createResolversFields_fst).
  assert (H2 : map fst (_resolversParentTypes (construct this)) = tableKeys this).
  { destruct (construct_resolversParentTypes this) as [used ->].
    apply createResolversFields_fst. }
  repeat split; try assumption.
  - rewrite !keys_NoDup_fst; rewrite ?H1, ?H2; trivial.
  - unfold tableKeys in H. now apply filter_In in H.
  - unfold tableKeys in H. apply filter_In in H as [_ H]. now apply negb_true_iff.
  - intros [Hin Hs]. unfold tableKeys. apply filter_In. split; [assumption|].
    now apply negb_true_iff.
Qed.

(** C2, the code at the failing input.  [checkedBefore] is created by [{}]:
    for a type that bears a name of [Object.prototype], the test of line 234
    finds the inherited member, and [shouldMapType] returns it: a function
    and not a boolean, whatever the type's kind, mapper and fields.  In the
    schema [type Post { c: constructor }], [type constructor { id: ID }],
    without any mapper, the dependency table holds that function for
    [constructor], and [true] for [Post], whose field [c] finds it. *)
Theorem shouldMapType_returns_inherited_member :
  (forall (this : BaseResolversVisitor) (t : GraphQLNamedType)
          (checkedBefore : Obj.t Js.flag) (duringCheck : list string) (fuel : nat),
      Js.inObjectPrototype (name t) = true ->
      Obj.get (name t) checkedBefore = None ->
      shouldMapTypeFuel this (S fuel) t checkedBefore duringCheck
      = Some (Js.PrototypeMember (name t), duringCheck)) /\
  mappers (config inheritedNameVisitor) = [] /\
  shouldMapType inheritedNameVisitor (getType inheritedNameVisitor "constructor") [] []
  = Js.PrototypeMember "constructor" /\
  Obj.get "constructor" (buildNestedMapping inheritedNameVisitor)
  = Some (Js.PrototypeMember "constructor") /\
  Obj.get "Post" (buildNestedMapping inheritedNameVisitor) = Some (Js.Boolean true).
Proof.
  split; [|repeat split].
  intros this t checkedBefore duringCheck fuel Hproto Hown.
  cbn [shouldMapTypeFuel]. unfold checked, Plain.get. now rewrite Hown, Hproto.
Qed.

(** C3 (as amended).  A type that is not a root type, has no enum override
    and has an explicit mapper with a non-empty expression is marked as used,
    and its entry is the wrapped mapper expression, in which the substitution
    step has replaced the first placeholder if there is one.  The default
    mapper has no part in it: the entry is the same under any other default
    mapper, and under none. *)
Theorem explicit_mapper_entry (this : BaseResolversVisitor) (T : string)
    (m : ParsedMapper) :
  In T (Obj.keys (_schema this)) ->
  Js.startsWith T "__" = false ->
  Js.arrayIncludes (_rootTypeNames this) T = false ->
  isEnumType (getType this T) && Obj.has T (enumValues (config this)) = false ->
  Obj.get T (mappers (config this)) = Some m ->
  type m <> EmptyString ->
  let wrapped := applyResolverTypeWrapper (type m) in
  Obj.get T (_usedMappers (construct this)) = Some true /\
  Obj.get T (_resolversTypes (construct this))
  = Some (if hasPlaceholder wrapped then replacePlaceholder wrapped T else wrapped) /\
  (forall d, Obj.get T (_resolversTypes (construct (withDefaultMapper this d)))
             = Obj.get T (_resolversTypes (construct this))).
Proof.
  intros Hin Hintro Hroot Henum Hm Hne wrapped.
  assert (Hentry : forall d,
             Obj.get T (_resolversTypes (construct (withDefaultMapper this d)))
             = Some (if hasPlaceholder wrapped then replacePlaceholder wrapped T
                     else wrapped)).
  { intros d. rewrite resolversTypes_get by assumption.
    now rewrite (resolveEntry_mapped (withDefaultMapper this d) _ _ _ T m). }
  assert (Hthis : Obj.get T (_resolversTypes (construct this))
                  = Some (if hasPlaceholder wrapped then replacePlaceholder wrapped T
                          else wrapped)).
  { rewrite resolversTypes_get by assumption.
    now rewrite (resolveEntry_mapped this _ _ _ T m). }
  split; [|split; [exact Hthis | intros d; now rewrite Hentry, Hthis]].
  rewrite construct_used_get.
  apply arrayIncludes_In in Hin. rewrite Hin.
  unfold marksMapper. rewrite Hintro, Hroot, Henum, Hm. cbn.
  apply String.eqb_neq in Hne. now rewrite Hne.
Qed.

(** A mapper without placeholder and a mapper with one, both under
    [defaultMapper: any]. *)
Lemma explicit_mapper_entry_witness :
  (defaultMapper (config mappedDefaultVisitor) = Some (literalMapper "any") /\
   Obj.get "User" (_usedMappers (construct mappedDefaultVisitor)) = Some true /\
   Obj.get "User" (_resolversTypes (construct mappedDefaultVisitor))
   = Some "ResolverTypeWrapper<UserModel>") /\
  (defaultMapper (config placeholderMapperVisitor) = Some (literalMapper "any") /\
   Obj.get "User" (_usedMappers (construct placeholderMapperVisitor)) = Some true /\
   Obj.get "User" (_resolversTypes (construct placeholderMapperVisitor))
   = Some "ResolverTypeWrapper<Partial<User>>").
Proof.
  split; (split; [reflexivity|]).
  - destruct (explicit_mapper_entry mappedDefaultVisitor "User" (literalMapper "UserModel"))
      as (Hused & Hentry & _); try reflexivity; [cbn; tauto | discriminate |].
    split; [exact Hused | exact Hentry].
  - destruct (explicit_mapper_entry placeholderMapperVisitor "User"
                (literalMapper "Partial<{T}>"))
      as (Hused & Hentry & _); try reflexivity; [cbn; tauto | discriminate |].
    split; [exact Hused | exact Hentry].
Defined.

(** The claim as stated fails where the mapper expression holds the
    placeholder: the entry is not the wrapped expression itself. *)
Lemma explicit_mapper_entry_counterexample :
  Obj.get "User" (mappers (config placeholderMapperVisitor))
  = Some (literalMapper "Partial<{T}>") /\
  defaultMapper (config placeholderMapperVisitor) = Some (literalMapper "any") /\
  Obj.get "User" (_resolversTypes (construct placeholderMapperVisitor))
  = Some "ResolverTypeWrapper<Partial<User>>" /\
  Obj.get "User" (_resolversTypes (construct placeholderMapperVisitor))
  <> Some (applyResolverTypeWrapper "Partial<{T}>").
Proof. repeat split. vm_compute. discriminate. Qed.

(** C4.  The entry of a root type is the wrapper applied to the root-value
    expression ([ResolversParentTypes]: the expression itself), whatever its
    fields, its mapper, the default mapper and the enum overrides: the
    iteration returns before any of them is looked at. *)
Theorem root_type_entry (this : BaseResolversVisitor) (T : string) :
  In T (_rootTypeNames this) ->
  In T (Obj.keys (_schema this)) ->
  Js.startsWith T "__" = false ->
  Obj.get T (_resolversTypes (construct this))
  = Some (applyResolverTypeWrapper (type (rootValueType (config this)))) /\
  Obj.get T (_resolversParentTypes (construct this))
  = Some (type (rootValueType (config this))).
Proof.
  intros Hroot Hin Hintro. apply arrayIncludes_In in Hroot.
  rewrite resolversTypes_get, resolversParentTypes_get by assumption.
  now rewrite !resolveEntry_root.
Qed.

Lemma root_type_entry_witness :
  Obj.get "Query" (_resolversTypes (construct placeholderMapperVisitor))
  = Some "ResolverTypeWrapper<{}>" /\
  Obj.get "Query" (_resolversParentTypes (construct placeholderMapperVisitor))
  = Some "{}".
Proof.
  apply (root_type_entry placeholderMapperVisitor "Query"); cbn; tauto.
Defined.



(** C6 (as amended).  A union type that is not a root type, has no mapper
    with a non-empty expression, is no configured scalar and meets no default
    mapper free of the placeholder: its entry is the disjunction of the
    lookups of its members in [ResolversTypes], in member order, joined by
    [ | ] and not wrapped, unless the union has no mapper and the default
    mapper holds the placeholder: then the entry is the default mapper's
    expression with the placeholder replaced by the disjunction, not wrapped
    either.  (A union with a mapper of empty expression is covered as long as
    the disjunction holds no placeholder.) *)
Theorem union_entry (this : BaseResolversVisitor) (T : string) (members : list string) :
  In T (Obj.keys (_schema this)) ->
  Js.startsWith T "__" = false ->
  Js.arrayIncludes (_rootTypeNames this) T = false ->
  kind (getType this T) = UnionKind members ->
  match Obj.get T (mappers (config this)) with
  | Some m => Js.truthy (Some (type m))
  | None => false
  end = false ->
  hasDefaultMapper this && negb (hasPlaceholder (defaultMapperType this)) = false ->
  Js.truthy (Obj.get T (scalars (config this))) = false ->
  let disjunction := Js.join " | " (map (getTypeToUse this) members) in
  Obj.has T (mappers (config this)) && hasPlaceholder disjunction = false ->
  Obj.get T (_resolversTypes (construct this)) =
    Some (if negb (Obj.has T (mappers (config this))) && hasDefaultMapper this
          then replacePlaceholder (defaultMapperType this)
                 (clearResolverTypeWrapper disjunction)
          else disjunction) /\
  Obj.get T (_resolversParentTypes (construct this)) =
    Some (if negb (Obj.has T (mappers (config this))) && hasDefaultMapper this
          then replacePlaceholder (defaultMapperType this) disjunction
          else disjunction).
Proof.
  intros Hin Hintro Hroot Hkind Hm Hd Hs disjunction Hp.
  rewrite resolversTypes_get, resolversParentTypes_get by assumption.
  rewrite !(resolveEntry_union this _ _ _ T members) by assumption.
  cbv zeta. fold disjunction.
  destruct (Obj.has T (mappers (config this))); cbn [andb negb] in *.
  - now rewrite Hp.
  - now destruct (hasDefaultMapper this).
Qed.

Lemma union_entry_witness :
  (kind (getType mappedVisitor "SearchResult") = UnionKind ["User"; "Post"] /\
   Obj.get "SearchResult" (_resolversTypes (construct mappedVisitor))
   = Some "ResolversTypes['User'] | ResolversTypes['Post']" /\
   Obj.get "SearchResult" (_resolversParentTypes (construct mappedVisitor))
   = Some "ResolversTypes['User'] | ResolversTypes['Post']") /\
  (kind (getType placeholderDefaultVisitor "SearchResult") = UnionKind ["User"; "Post"] /\
   Obj.get "SearchResult" (_resolversTypes (construct placeholderDefaultVisitor))
   = Some "Partial<ResolversTypes['User'] | ResolversTypes['Post']>" /\
   Obj.get "SearchResult" (_resolversParentTypes (construct placeholderDefaultVisitor))
   = Some "Partial<ResolversTypes['User'] | ResolversTypes['Post']>").
Proof.
  split; (split; [reflexivity|]).
  - apply (union_entry mappedVisitor "SearchResult" ["User"; "Post"]); try reflexivity.
    cbn. tauto.
  - apply (union_entry placeholderDefaultVisitor "SearchResult" ["User"; "Post"]);
      try reflexivity.
    cbn. tauto.
Defined.

(** The claim as stated fails under a default mapper that holds the
    placeholder: no placeholder-free default mapper applies, and the entry
    is not the disjunction. *)
Lemma union_entry_counterexample :
  kind (getType placeholderDefaultVisitor "SearchResult") = UnionKind ["User"; "Post"] /\
  Js.arrayIncludes (_rootTypeNames placeholderDefaultVisitor) "SearchResult" = false /\
  Obj.get "SearchResult" (mappers (config placeholderDefaultVisitor)) = None /\
  hasDefaultMapper placeholderDefaultVisitor
  && negb (hasPlaceholder (defaultMapperType placeholderDefaultVisitor)) = false /\
  Obj.get "SearchResult" (_resolversTypes (construct placeholderDefaultVisitor))
  = Some "Partial<ResolversTypes['User'] | ResolversTypes['Post']>" /\
  Obj.get "SearchResult" (_resolversTypes (construct placeholderDefaultVisitor))
  <> Some (Js.join " | "
             (map (getTypeToUse placeholderDefaultVisitor) ["User"; "Post"])).
Proof. repeat split. vm_compute. discriminate. Qed.

(** C7, the code at the failing input.  With a naming convention that turns
    [User] into [IUser], the placeholder of the mapper [Partial<{T}>] of
    [User] is replaced by [User], the name as the schema has it, and not by
    the converted name.  The placeholder of a default mapper, under the same
    convention, is replaced by the converted name. *)
Theorem mapper_placeholder_gets_schema_name :
  convertName prefixedVisitor "User" = "IUser" /\
  Obj.get "User" (_resolversTypes (construct prefixedVisitor))
  = Some "ResolverTypeWrapper<Partial<User>>" /\
  Obj.get "User" (_resolversParentTypes (construct prefixedVisitor))
  = Some "Partial<User>" /\
  Obj.get "A" (_resolversTypes (construct prefixedDefaultVisitor))
  = Some "ResolverTypeWrapper<Partial<IA>>".
Proof. repeat split. Qed.

(** C8.  Around a base expression on one line: a bare named type gets one
    [Maybe]; a list gets a [Maybe] around the [Array] of its wrapped item
    type, whatever the item's own nullability; a non-null around a nullable
    type is that type's wrapping without its outermost [Maybe].  So the
    expression of a modifier chain carries a [Maybe] at the nullable
    positions, and at no other ([modifiersExpression]). *)
Theorem wrapTypeWithModifiers_modifiers (base : string) :
  Js.hasLineTerminator base = false ->
  (forall n, wrapTypeWithModifiers base (GraphQLNamed n) = applyMaybe base) /\
  (forall t, wrapTypeWithModifiers base (GraphQLList t)
             = applyMaybe ("Array<" ++ wrapTypeWithModifiers base t ++ ">")) /\
  (forall t, isNonNullType t = false ->
             exists inner,
               wrapTypeWithModifiers base t = applyMaybe inner /\
               wrapTypeWithModifiers base (GraphQLNonNull t) = inner) /\
  (forall t, nullableAround t = true ->
             wrapTypeWithModifiers base t = modifiersExpression true base t).
Proof.
  intros Hbase. repeat split.
  - intros t Ht. destruct (clearMaybe_nullable base Hbase t Ht) as (inner & E1 & E2).
    exists inner. split; [exact E1 | exact E2].
  - intros t Ht. now apply wrapTypeWithModifiers_expression.
Qed.

Lemma wrapTypeWithModifiers_modifiers_witness :
  Js.hasLineTerminator "ResolversTypes['User']" = false /\
  wrapTypeWithModifiers "ResolversTypes['User']"
    (GraphQLNonNull (GraphQLList (GraphQLNamed "User")))
  = "Array<Maybe<ResolversTypes['User']>>" /\
  wrapTypeWithModifiers "ResolversTypes['User']"
    (GraphQLList (GraphQLNonNull (GraphQLNamed "User")))
  = "Maybe<Array<ResolversTypes['User']>>".
Proof.
  split; [reflexivity|].
  destruct (wrapTypeWithModifiers_modifiers "ResolversTypes['User']" eq_refl)
    as (_ & _ & _ & H).
  split.
  - exact (H (GraphQLNonNull (GraphQLList (GraphQLNamed "User"))) eq_refl).
  - exact (H (GraphQLList (GraphQLNonNull (GraphQLNamed "User"))) eq_refl).
Defined.

(** C9, the code at the failing input.  [_usedMappers] is created by [{}]:
    under a name of [Object.prototype] that was never marked it answers the
    inherited member, which is truthy.  So a registered mapper is reported
    as unused exactly when it was not marked and does not bear such a name;
    marked are the types whose iteration took the explicit mapper.  With
    [mappers: { Ghost: ..., valueOf: ... }] over a schema that has neither
    type, nothing is marked, and only [Ghost] is reported. *)
Theorem unusedMappers_misses_inherited_names :
  (forall (this : BaseResolversVisitor) (n : string),
      In n (unusedMappers this (construct this)) <->
      In n (Obj.keys (mappers (config this)))
      /\ Obj.get n (_usedMappers (construct this)) <> Some true
      /\ Js.inObjectPrototype n = false) /\
  (forall (this : BaseResolversVisitor) (n : string),
      Obj.get n (_usedMappers (construct this)) = Some true <->
      In n (Obj.keys (_schema this)) /\ marksMapper this n = true) /\
  Obj.keys (mappers (config ghostVisitor)) = ["Ghost"; "valueOf"] /\
  _usedMappers (construct ghostVisitor) = [] /\
  unusedMappers ghostVisitor (construct ghostVisitor) = ["Ghost"].
Proof.
  split; [|split; [|repeat split]].
  - intros this n. unfold unusedMappers, Plain.get. rewrite filter_In.
    rewrite construct_used_get.
    destruct (Js.arrayIncludes _ n && marksMapper this n); cbn.
    + split; [intros [_ H]; discriminate | intros (_ & H & _); now elim H].
    + destruct (Js.inObjectPrototype n); cbn.
      * split; [intros [_ H] | intros (_ & _ & H)]; discriminate.
      * split; [intros [H _] | intros (H & _)]; repeat split; trivial; discriminate.
  - intros this n. rewrite construct_used_get, <- arrayIncludes_In.
    destruct (Js.arrayIncludes _ n), (marksMapper this n); cbn; intuition congruence.
Qed.

(** C10 (as amended).  On a text without line terminator, wrapping twice is
    wrapping once: clearing a wrapped text gives back what was wrapped. *)
Theorem applyResolverTypeWrapper_idempotent (s : string) :
  Js.hasLineTerminator s = false ->
  clearResolverTypeWrapper (applyResolverTypeWrapper s) = clearResolverTypeWrapper s /\
  applyResolverTypeWrapper (applyResolverTypeWrapper s) = applyResolverTypeWrapper s.
Proof.
  intros Hs.
  assert (E : clearResolverTypeWrapper (applyResolverTypeWrapper s)
              = clearResolverTypeWrapper s).
  { unfold applyResolverTypeWrapper. apply clearResolverTypeWrapper_wrapped.
    now apply clearResolverTypeWrapper_hasLineTerminator. }
  split; [exact E|].
  unfold applyResolverTypeWrapper at 1. now rewrite E.
Qed.

Lemma applyResolverTypeWrapper_idempotent_witness :
  Js.hasLineTerminator "ResolverTypeWrapper<User>" = false /\
  applyResolverTypeWrapper "ResolverTypeWrapper<User>" = "ResolverTypeWrapper<User>" /\
  applyResolverTypeWrapper (applyResolverTypeWrapper "User")
  = applyResolverTypeWrapper "User".
Proof.
  split; [reflexivity|]. split; [reflexivity|].
  exact (proj2 (applyResolverTypeWrapper_idempotent "User" eq_refl)).
Defined.

(** The claim as stated fails on a text of two lines whose second line opens
    a wrapper: the second wrapping removes the inner opening and nests.  And
    a wrapper does occur inside a wrapped table entry: the field-level
    override of an interface type under [defaultMapper: any] is applied to
    the wrapped default expression, and the result is wrapped. *)
Lemma applyResolverTypeWrapper_idempotent_counterexample :
  applyResolverTypeWrapper twoLines
  = "ResolverTypeWrapper<a" ++ String Js.LF "ResolverTypeWrapper<b>" /\
  applyResolverTypeWrapper (applyResolverTypeWrapper twoLines)
  = "ResolverTypeWrapper<ResolverTypeWrapper<a" ++ String Js.LF "b>" /\
  applyResolverTypeWrapper (applyResolverTypeWrapper twoLines)
  <> applyResolverTypeWrapper twoLines /\
  Obj.get "Node" (_resolversTypes (construct interfaceVisitor))
  = Some ("ResolverTypeWrapper<Omit<ResolverTypeWrapper<any>, 'owner'> & { "
          ++ "owner?: Maybe<ResolversTypes['User']> }>").
Proof. repeat split. vm_compute. discriminate. Qed.

(* ================================================================== *)
(** * Further properties of the code *)

(** ** The dependency table *)

Section DependencyTable.

Variable this : BaseResolversVisitor.

Local Abbreviation nestedStep :=
  (fun (nestedMapping : Obj.t Js.flag) (typeName : string) =>
     Plain.set typeName
       (shouldMapType this (getType this typeName) nestedMapping []) nestedMapping).

Lemma get_None_fst {V : Type} (k : string) (o : Obj.t V) :
  Obj.get k o = None <-> ~ In k (map fst o).
Proof.
  rewrite <- has_In_fst. unfold Obj.has.
  destruct (Obj.get k o); split; congruence.
Qed.

Lemma checked_own (cb : Obj.t Js.flag) (n : string) (v : Js.flag) :
  Obj.get n cb = Some v -> checked cb n = Some v.
Proof. intros H. unfold checked, Plain.get. now rewrite H. Qed.

Lemma checked_inherited (cb : Obj.t Js.flag) (n : string) :
  Js.inObjectPrototype n = true -> exists v, checked cb n = Some v.
Proof.
  intros H. unfold checked, Plain.get.
  destruct (Obj.get n cb); [eauto|]. rewrite H. eauto.
Qed.

Lemma checked_None (cb : Obj.t Js.flag) (n : string) :
  checked cb n = None <-> Obj.get n cb = None /\ Js.inObjectPrototype n = false.
Proof.
  unfold checked, Plain.get.
  destruct (Obj.get n cb); [split; [discriminate | intros [H _]; discriminate]|].
  destruct (Js.inObjectPrototype n); split; try discriminate; try tauto.
  intros [_ H]. discriminate.
Qed.

(** What the table answers is an own entry, or the inherited member. *)
Lemma checked_cases (cb : Obj.t Js.flag) (n : string) (v : Js.flag) :
  checked cb n = Some v ->
  Obj.get n cb = Some v \/ (Js.inObjectPrototype n = true /\ v = Js.PrototypeMember n).
Proof.
  unfold checked, Plain.get.
  destruct (Obj.get n cb); [intros [= <-]; now left|].
  destruct (Js.inObjectPrototype n); [intros [= <-]; now right | discriminate].
Qed.

Lemma nested_fold_fst (ks : list string) (acc : Obj.t Js.flag) :
  NoDup ks ->
  (forall k, In k ks -> Obj.get k acc = None) ->
  map fst (fold_left nestedStep ks acc)
  = (map fst acc ++ filter (fun k => negb (String.eqb k "__proto__")) ks)%list.
Proof.
  revert acc. induction ks as [|T ks IH]; intros acc Hnd Hfresh.
  - cbn. now rewrite app_nil_r.
  - inversion Hnd as [|? ? HT Hks]; subst. cbn [fold_left filter].
    unfold Plain.set at 2. destruct (String.eqb T "__proto__") eqn:E; cbn [negb].
    + apply IH; [assumption|]. intros k Hk. apply Hfresh. now right.
    + rewrite IH; [|assumption|].
      * rewrite fst_set. unfold Obj.has.
        rewrite (Hfresh T (or_introl eq_refl)). now rewrite <- app_assoc.
      * intros k Hk. rewrite get_set_other by congruence. apply Hfresh. now right.
Qed.

(** What holds of every answer computed against a table of which it holds,
    holds of the finished table. *)
Lemma nested_fold_invariant (Good : string -> Js.flag -> Prop) :
  (forall cb T,
      In T (Obj.keys (_schema this)) ->
      Obj.get T cb = None ->
      (forall k v, Obj.get k cb = Some v -> Good k v) ->
      Good T (shouldMapType this (getType this T) cb [])) ->
  forall k v, Obj.get k (buildNestedMapping this) = Some v -> Good k v.
Proof.
  intros Hstep. unfold buildNestedMapping.
  assert (H : forall ks acc,
             NoDup ks ->
             (forall k, In k ks -> Obj.get k acc = None) ->
             incl ks (Obj.keys (_schema this)) ->
             (forall k v, Obj.get k acc = Some v -> Good k v) ->
             forall k v, Obj.get k (fold_left nestedStep ks acc) = Some v -> Good k v).
  { induction ks as [|T ks IH]; intros acc Hnd Hfresh Hincl Hacc; [exact Hacc|].
    inversion Hnd as [|? ? HT Hks]; subst. cbn [fold_left].
    unfold Plain.set at 2. destruct (String.eqb T "__proto__").
    - apply IH; [assumption| | |exact Hacc].
      + intros k Hk. apply Hfresh. now right.
      + intros k Hk. apply Hincl. now right.
    - apply IH; [assumption| | |].
      + intros k Hk. rewrite get_set_other by congruence. apply Hfresh. now right.
      + intros k Hk. apply Hincl. now right.
      + intros k v. destruct (string_dec T k) as [<-|ne].
        * rewrite get_set_same. intros [= <-].
          apply Hstep; [apply Hincl; now left | apply Hfresh; now left | exact Hacc].
        * rewrite get_set_other by assumption. apply Hacc. }
  apply H; [apply NoDup_keys | reflexivity | apply incl_refl | discriminate].
Qed.

Lemma shouldMapType_unfold (t : GraphQLNamedType) (cb : Obj.t Js.flag) (dc : list string) :
  shouldMapType this t cb dc =
  match shouldMapTypeFuel this (S (2 * List.length (Obj.keys (_schema this)) + 2)) t cb dc with
  | Some (v, _) => v
  | None => Js.Boolean false
  end.
Proof.
  unfold shouldMapType, shouldMapTypeDepth.
  now replace (2 * List.length (Obj.keys (_schema this)) + 3)
    with (S (2 * List.length (Obj.keys (_schema this)) + 2)) by lia.
Qed.

(** [shouldMapType] returns, and returns what the run with enough fuel
    returns. *)
Lemma shouldMapType_run (t : GraphQLNamedType) (cb : Obj.t Js.flag) (dc : list string) :
  exists dc',
    shouldMapTypeFuel this (shouldMapTypeDepth this) t cb dc
    = Some (shouldMapType this t cb dc, dc')
    /\ incl dc dc'.
Proof.
  destruct (shouldMapTypeFuel_enough this (shouldMapTypeDepth this) t cb dc
              (shouldMapTypeCost_depth this _ _)) as (v & dc' & Hrun & Hincl).
  exists dc'. unfold shouldMapType. now rewrite Hrun.
Qed.

(** A truthy answer is backed: by an inherited name, by a mapper of the
    type, or by a type reached through fields. *)
Lemma shouldMapTypeFuel_sound (fuel : nat) :
  forall (t : GraphQLNamedType) (cb : Obj.t Js.flag) (dc dc' : list string) (v : Js.flag),
    (forall k w, checked cb k = Some w -> Js.toBoolean w = true ->
                 requiresMapping this k) ->
    t = getType this (name t) ->
    shouldMapTypeFuel this fuel t cb dc = Some (v, dc') ->
    Js.toBoolean v = true ->
    requiresMapping this (name t).
Proof.
  induction fuel as [|fuel IH]; intros t cb dc dc' v Hcb Ht; [discriminate|].
  cbn [shouldMapTypeFuel].
  destruct (checked cb (name t)) as [w|] eqn:Hmemo.
  { intros [= <- _] Hv. now apply (Hcb _ w). }
  destruct (Js.startsWith _ _ || _) eqn:Hblocked; [intros [= <- _]; discriminate|].
  destruct (Obj.has (name t) (mappers (config this))) eqn:Hmapped.
  { intros _ _. now apply requires_here. }
  destruct (isObjectType t || isInterfaceType t); [|intros [= <- _]; discriminate].
  cbv zeta.
  set (kept := filter _ (getFields t)).
  assert (Hkept : forall f, In f kept -> In f (getFields t))
    by (intros f Hf; now apply filter_In in Hf).
  clearbody kept.
  assert (Hloop : forall d d',
             shouldMapFields this (fun t0 d0 => shouldMapTypeFuel this fuel t0 cb d0)
               t cb kept d = Some (true, d') ->
             requiresMapping this (name t)).
  { induction kept as [|f rest IHrest]; intros d d'; [discriminate|].
    cbn [shouldMapFields]. cbv zeta.
    assert (Hf : In f (getFields (getType this (name t))))
      by (rewrite <- Ht; apply Hkept; now left).
    assert (Hrest : forall f0, In f0 rest -> In f0 (getFields t))
      by (intros f0 Hf0; apply Hkept; now right).
    destruct (checked cb (name (getBaseType this (fieldType f)))) as [w|] eqn:Hfield.
    - destruct (Js.toBoolean w) eqn:Hw; [|now apply IHrest].
      intros _. apply requires_field with (f := f); [exact Hblocked | exact Hf|].
      now apply (Hcb _ w).
    - rewrite Hmapped.
      destruct (shouldMapTypeFuel this fuel _ cb _) as [[w dc2]|] eqn:Hrec;
        [|discriminate].
      destruct (Js.toBoolean w) eqn:Hw; [|now apply IHrest].
      intros _. apply requires_field with (f := f); [exact Hblocked | exact Hf|].
      exact (IH _ _ _ _ _ Hcb eq_refl Hrec Hw). }
  destruct (shouldMapFields this _ t cb kept dc) as [[b d']|] eqn:Hfs; [|discriminate].
  intros [= <- _] Hb. cbn in Hb. subst b. exact (Hloop _ _ Hfs).
Qed.

Lemma settled_mono (cb : Obj.t Js.flag) (D D' : list string) (w : string) :
  incl D D' -> settled cb D w -> settled cb D' w.
Proof. intros Hi [H|H]; [left; now apply Hi | now right]. Qed.

Lemma dead_mono (cb : Obj.t Js.flag) (D D' : list string) (w : string) :
  incl D D' -> dead this cb D w -> dead this cb D' w.
Proof.
  intros Hi [Hc [H|[Hm H]]]; (split; [exact Hc|]); [now left | right].
  split; [exact Hm|].
  intros f Hf. eapply settled_mono; eauto.
Qed.

Lemma closed_mono (cb : Obj.t Js.flag) (D D' : list string) (z : string) :
  incl D D' -> closed this cb D z -> closed this cb D' z.
Proof.
  intros Hi [Hc [H|[Hm H]]]; (split; [exact Hc|]); [now left | right].
  split; [exact Hm|].
  intros f Hf. destruct (H f Hf); [left; eapply settled_mono | right; eapply dead_mono];
    eauto.
Qed.

Lemma getFields_leaf (t : GraphQLNamedType) :
  isObjectType t || isInterfaceType t = false -> getFields t = [].
Proof.
  unfold isObjectType, isInterfaceType, getFields. now destruct (kind t).
Qed.

(** A falsy answer leaves the search closed: what the call pushed on the
    array has settled or dead fields only, and so has the type itself. *)
Lemma shouldMapTypeFuel_closed (fuel : nat) :
  forall (t : GraphQLNamedType) (cb : Obj.t Js.flag) (D D' : list string) (v : Js.flag),
    t = getType this (name t) ->
    shouldMapTypeFuel this fuel t cb D = Some (v, D') ->
    Js.toBoolean v = false ->
    incl D D'
    /\ (forall z, In z D' -> In z D \/ closed this cb D' z)
    /\ (settled cb D' (name t) \/ dead this cb D' (name t)).
Proof.
  induction fuel as [|fuel IH]; intros t cb D D' v Ht; [discriminate|].
  cbn [shouldMapTypeFuel].
  destruct (checked cb (name t)) as [w|] eqn:Hmemo.
  { intros [= <- <-] Hv.
    repeat split; [apply incl_refl | now left | left; right; now exists w]. }
  destruct (Js.startsWith _ _ || _) eqn:Hblocked.
  { intros [= <- <-] _.
    repeat split; [apply incl_refl | now left | right; split; [exact Hmemo | now left]]. }
  destruct (Obj.has (name t) (mappers (config this))) eqn:Hmapped;
    [intros [= <- _]; discriminate|].
  destruct (isObjectType t || isInterfaceType t) eqn:Hkind.
  2:{ intros [= <- <-] _. repeat split; [apply incl_refl | now left |].
      right. split; [exact Hmemo|]. right. split; [exact Hmapped|].
      rewrite <- Ht, (getFields_leaf t Hkind). intros f []. }
  cbv zeta.
  set (kept := filter _ (getFields t)).
  assert (Hkept : forall f, In f (getFields t) ->
            In f kept \/ In (getBaseTypeName (fieldType f)) D).
  { intros f Hf.
    destruct (Js.arrayIncludes D (getBaseTypeName (fieldType f))) eqn:E.
    - right. now apply arrayIncludes_In.
    - left. apply filter_In. split; [exact Hf|].
      cbn [getBaseType getType name]. now rewrite E. }
  clearbody kept.
  assert (Hloop : forall fs dcur,
            incl D dcur ->
            (forall z, In z dcur -> In z D \/ z = name t \/ closed this cb dcur z) ->
            shouldMapFields this
              (fun t0 d => shouldMapTypeFuel this fuel t0 cb d) t cb fs dcur
            = Some (false, D') ->
            incl dcur D'
            /\ (forall z, In z D' -> In z D \/ z = name t \/ closed this cb D' z)
            /\ (forall f, In f fs ->
                   settled cb D' (getBaseTypeName (fieldType f))
                   \/ dead this cb D' (getBaseTypeName (fieldType f)))
            /\ (In (name t) D'
                \/ forall f, In f fs -> settled cb D' (getBaseTypeName (fieldType f)))).
  { induction fs as [|f rest IHrest]; intros dcur Hdcur Hinv.
    - cbn. intros [= <-].
      repeat split; [apply incl_refl | exact Hinv | intros f [] | right; intros f []].
    - cbn [shouldMapFields]. cbv zeta. cbn [getBaseType getType name].
      destruct (checked cb (getBaseTypeName (fieldType f))) as [w|] eqn:Hfield.
      + destruct (Js.toBoolean w) eqn:Hw; [discriminate|].
        intros Hrun. destruct (IHrest dcur Hdcur Hinv Hrun) as (I1 & I2 & I3 & I4).
        assert (Hset : forall D0, settled cb D0 (getBaseTypeName (fieldType f)))
          by (intros D0; right; now exists w).
        repeat split; [exact I1 | exact I2 | |].
        * intros f0 [<-|Hf0]; [left; apply Hset | now apply I3].
        * destruct I4 as [I4|I4]; [now left | right].
          intros f0 [<-|Hf0]; [apply Hset | now apply I4].
      + rewrite Hmapped.
        destruct (shouldMapTypeFuel this fuel _ cb _) as [[w dc2]|] eqn:Hrec;
          [|discriminate].
        destruct (Js.toBoolean w) eqn:Hw; [discriminate|].
        destruct (IH _ _ _ _ _ eq_refl Hrec Hw) as (J1 & J2 & J3).
        cbn [getType name] in J3.
        assert (Hgrow : incl dcur dc2)
          by (intros y Hy; apply J1, in_or_app; now left).
        assert (HX : In (name t) dc2)
          by (apply J1, in_or_app; right; now left).
        intros Hrun.
        destruct (IHrest dc2) as (I1 & I2 & I3 & I4).
        * intros y Hy. now apply Hgrow, Hdcur.
        * intros z Hz. destruct (J2 z Hz) as [Hold|Hc]; [|now (right; right)].
          apply in_app_or in Hold as [Hold|[<-|[]]]; [|right; now left].
          destruct (Hinv z Hold) as [H|[H|H]]; [now left | right; now left |].
          right. right. eapply closed_mono; eauto.
        * exact Hrun.
        * assert (Hfinal : incl dc2 D') by exact I1.
          repeat split.
          -- intros y Hy. now apply Hfinal, Hgrow.
          -- exact I2.
          -- intros f0 [<-|Hf0]; [|now apply I3].
             destruct J3 as [J3|J3];
               [left; eapply settled_mono | right; eapply dead_mono]; eauto.
          -- left. now apply Hfinal. }
  destruct (shouldMapFields this _ t cb kept D) as [[b d']|] eqn:Hfs; [|discriminate].
  intros [= <- <-] Hb. cbn in Hb. subst b.
  destruct (Hloop kept D (incl_refl D) (fun z Hz => or_introl Hz) Hfs)
    as (I1 & I2 & I3 & I4).
  assert (Hfields : forall f, In f (getFields (getType this (name t))) ->
            settled cb d' (getBaseTypeName (fieldType f))
            \/ dead this cb d' (getBaseTypeName (fieldType f))).
  { intros f Hf. rewrite <- Ht in Hf.
    destruct (Hkept f Hf) as [Hk|Hd]; [now apply I3 | left; left; now apply I1]. }
  repeat split; [exact I1 | |].
  - intros z Hz. destruct (I2 z Hz) as [H|[->|H]]; [now left | | now right].
    right. split; [exact Hmemo|]. right. split; [exact Hmapped | exact Hfields].
  - destruct I4 as [I4|I4]; [left; now left|].
    right. split; [exact Hmemo|]. right. split; [exact Hmapped|].
    intros f Hf. rewrite <- Ht in Hf.
    destruct (Hkept f Hf) as [Hk|Hd]; [now apply I4 | left; now apply I1].
Qed.

(** With a memo table whose falsy answers are right, a falsy answer of a
    call that starts from an empty array is right. *)
Lemma shouldMapTypeFuel_complete (fuel : nat) (t : GraphQLNamedType)
    (cb : Obj.t Js.flag) (D' : list string) (v : Js.flag) :
  (forall k w, checked cb k = Some w -> Js.toBoolean w = false ->
               ~ requiresMapping this k) ->
  t = getType this (name t) ->
  shouldMapTypeFuel this fuel t cb [] = Some (v, D') ->
  Js.toBoolean v = false ->
  ~ requiresMapping this (name t).
Proof.
  intros Hcb Ht Hrun Hv.
  destruct (shouldMapTypeFuel_closed fuel t cb [] D' v Ht Hrun Hv) as (_ & Hclosed & Hself).
  assert (Hsafe : forall n, requiresMapping this n ->
            ~ (settled cb D' n \/ dead this cb D' n)).
  { induction 1 as [n Hp | n Hb Hm | n f Hb Hf Hreq IHreq];
      intros [[Hin|(w & Hmemo & Hw)]|[Hnone Hdead]].
    - destruct (Hclosed n Hin) as [[]|[Hnone _]].
      destruct (checked_inherited cb n Hp) as [w Hw]. congruence.
    - apply (Hcb n w Hmemo Hw). now apply requires_inherited.
    - destruct (checked_inherited cb n Hp) as [w Hw]. congruence.
    - destruct (Hclosed n Hin) as [[]|[_ [H|[H _]]]]; congruence.
    - apply (Hcb n w Hmemo Hw). now apply requires_here.
    - destruct Hdead as [H|[H _]]; congruence.
    - destruct (Hclosed n Hin) as [[]|[_ [H|[_ H]]]]; [congruence|].
      apply IHreq. now apply H.
    - apply (Hcb n w Hmemo Hw). now apply requires_field with (f := f).
    - destruct Hdead as [H|[_ H]]; [congruence|].
      apply IHreq. left. now apply H. }
  intros Hreq. exact (Hsafe _ Hreq Hself).
Qed.

(** What the first loop assigns to [nestedMapping.__proto__] is the member
    it has read there: [Object.prototype] itself. *)
Lemma shouldMapType_proto (cb : Obj.t Js.flag) :
  Obj.get "__proto__" cb = None ->
  shouldMapType this (getType this "__proto__") cb [] = Js.PrototypeMember "__proto__".
Proof.
  intros H. rewrite shouldMapType_unfold. cbn [shouldMapTypeFuel getType name].
  unfold checked, Plain.get. now rewrite H.
Qed.

(** Every own entry of the finished table is right. *)
Lemma buildNestedMapping_own (T : string) (v : Js.flag) :
  Obj.get T (buildNestedMapping this) = Some v ->
  (Js.toBoolean v = true <-> requiresMapping this T).
Proof.
  revert T v. apply nested_fold_invariant.
  intros cb T _ _ Hcb.
  assert (Hchecked : forall k w, checked cb k = Some w ->
             (Js.toBoolean w = true <-> requiresMapping this k)).
  { intros k w Hk. destruct (checked_cases cb k w Hk) as [Hown|[Hp ->]];
      [now apply Hcb|].
    split; [intros _; now apply requires_inherited | reflexivity]. }
  destruct (shouldMapType_run (getType this T) cb []) as (dc' & Hrun & _).
  destruct (Js.toBoolean (shouldMapType this (getType this T) cb [])) eqn:Hv.
  - split; [intros _ | reflexivity].
    refine (shouldMapTypeFuel_sound _ (getType this T) cb [] dc' _ _ eq_refl Hrun Hv).
    intros k w Hk Hw. now apply (Hchecked k w Hk).
  - split; [discriminate|]. intros Hreq. exfalso.
    refine (shouldMapTypeFuel_complete _ (getType this T) cb dc' _ _ eq_refl Hrun Hv Hreq).
    intros k w Hk Hw Hreqk. apply (Hchecked k w Hk) in Hreqk. congruence.
Qed.

(** Every type of the type map has an own entry, [__proto__] apart. *)
Lemma dependency_table_entry (T : string) :
  In T (Obj.keys (_schema this)) ->
  String.eqb T "__proto__" = false ->
  exists v, Obj.get T (buildNestedMapping this) = Some v.
Proof.
  intros HT Hp.
  assert (E : In T (map fst (buildNestedMapping this))).
  { unfold buildNestedMapping. rewrite nested_fold_fst;
      [|apply NoDup_keys | reflexivity].
    cbn [map app]. apply filter_In. split; [exact HT | now rewrite Hp]. }
  apply has_In_fst in E. unfold Obj.has in E.
  destruct (Obj.get T (buildNestedMapping this)) as [v|]; [now exists v | discriminate].
Qed.

Lemma requiresMapping_known (n : string) :
  requiresMapping this n ->
  Js.inObjectPrototype n = true
  \/ Obj.has n (mappers (config this)) = true
  \/ In n (Obj.keys (_schema this)).
Proof.
  intros [n0 H | n0 _ H | n0 f _ Hf _]; [now left | right; now left | right; right].
  unfold getFields, getType in Hf. cbn [kind] in Hf.
  destruct (Obj.get n0 (_schema this)) eqn:E; [|destruct Hf].
  apply In_keys, has_In_fst. unfold Obj.has. now rewrite E.
Qed.

(** The lookup of a name in the finished table is truthy exactly when the
    name requires mapping: for the types of the type map, and for the names
    without mapper. *)
Lemma marked_exact (n : string) :
  In n (Obj.keys (_schema this)) \/ Obj.has n (mappers (config this)) = false ->
  (marked (buildNestedMapping this) n = true <-> requiresMapping this n).
Proof.
  intros Hn. unfold marked.
  destruct (checked (buildNestedMapping this) n) as [v|] eqn:Hc.
  - destruct (checked_cases _ n v Hc) as [Hown|[Hp ->]];
      [now apply buildNestedMapping_own|].
    split; [intros _; now apply requires_inherited | reflexivity].
  - split; [discriminate|]. intros Hreq. exfalso.
    apply checked_None in Hc as [Hown Hp].
    assert (Hkey : In n (Obj.keys (_schema this))).
    { destruct Hn as [Hn|Hn]; [exact Hn|].
      destruct (requiresMapping_known n Hreq) as [H|[H|H]]; congruence. }
    destruct (dependency_table_entry n Hkey (inObjectPrototype_proto n Hp)) as [v Hv].
    congruence.
Qed.

End DependencyTable.

(** X1.  The dependency table has one entry of its own for every type of
    the type map, introspection types included, in the order of the type
    map; only the assignment to [__proto__] creates none.  The entry is a
    boolean, except under a name of [Object.prototype], where it is the
    inherited member. *)
Theorem dependency_table_total (this : BaseResolversVisitor) :
  map fst (buildNestedMapping this)
  = filter (fun k => negb (String.eqb k "__proto__")) (Obj.keys (_schema this)) /\
  (forall T v,
      Obj.get T (buildNestedMapping this) = Some v ->
      if Js.inObjectPrototype T then v = Js.PrototypeMember T
      else exists b, v = Js.Boolean b) /\
  (forall T, In T (Obj.keys (_schema this)) ->
             exists v, checked (buildNestedMapping this) T = Some v).
Proof.
  split; [|split].
  - unfold buildNestedMapping.
    now rewrite nested_fold_fst; [|apply NoDup_keys | reflexivity].
  - apply (nested_fold_invariant this
             (fun T v => if Js.inObjectPrototype T then v = Js.PrototypeMember T
                         else exists b, v = Js.Boolean b)).
    intros cb T _ Hfresh _.
    rewrite shouldMapType_unfold. cbn [shouldMapTypeFuel getType name].
    unfold checked, Plain.get. rewrite Hfresh.
    destruct (Js.inObjectPrototype T); [reflexivity|].
    destruct (Js.startsWith T "__" || _); [eauto|].
    destruct (Obj.has T (mappers (config this))); [eauto|].
    destruct (isObjectType _ || isInterfaceType _); [|eauto].
    cbv zeta. destruct (shouldMapFields _ _ _ _ _ _) as [[b d]|]; eauto.
  - intros T HT. destruct (Js.inObjectPrototype T) eqn:Hp.
    + now apply checked_inherited.
    + destruct (dependency_table_entry this T HT (inObjectPrototype_proto T Hp))
        as [v Hv].
      exists v. now apply checked_own.
Qed.

Lemma dependency_table_cases (this : BaseResolversVisitor) (T : string) (v : Js.flag) :
  Obj.get T (buildNestedMapping this) = Some v ->
  Js.inObjectPrototype T = false ->
  (Js.startsWith T "__" || Js.truthy (Obj.get T (scalars (config this))) = true ->
   v = Js.Boolean false) /\
  (Js.startsWith T "__" || Js.truthy (Obj.get T (scalars (config this))) = false ->
   Obj.has T (mappers (config this)) = true -> v = Js.Boolean true) /\
  (Obj.has T (mappers (config this)) = false ->
   isObjectType (getType this T) || isInterfaceType (getType this T) = false ->
   v = Js.Boolean false).
Proof.
  revert T v.
  apply (nested_fold_invariant this
           (fun T v =>
              Js.inObjectPrototype T = false ->
              (Js.startsWith T "__" || Js.truthy (Obj.get T (scalars (config this))) = true ->
               v = Js.Boolean false) /\
              (Js.startsWith T "__" || Js.truthy (Obj.get T (scalars (config this))) = false ->
               Obj.has T (mappers (config this)) = true -> v = Js.Boolean true) /\
              (Obj.has T (mappers (config this)) = false ->
               isObjectType (getType this T) || isInterfaceType (getType this T) = false ->
               v = Js.Boolean false))).
  intros cb T _ Hfresh _ Hp.
  rewrite shouldMapType_unfold. cbn [shouldMapTypeFuel getType name].
  unfold checked, Plain.get. rewrite Hfresh, Hp.
  destruct (Js.startsWith T "__" || _); [repeat split; congruence|].
  destruct (Obj.has T (mappers (config this))); [repeat split; congruence|].
  destruct (isObjectType _ || isInterfaceType _); repeat split; congruence.
Qed.

(** X2.  For a type that bears no name of [Object.prototype]: in the
    dependency table an introspection type and a configured scalar are
    [false], also with a mapper; any other type with a mapper is [true]; a
    type without mapper that is neither an object nor an interface type is
    [false]. *)
Theorem dependency_table_decided (this : BaseResolversVisitor) (T : string) :
  In T (Obj.keys (_schema this)) ->
  Js.inObjectPrototype T = false ->
  (Js.startsWith T "__" || Js.truthy (Obj.get T (scalars (config this))) = true ->
   Obj.get T (buildNestedMapping this) = Some (Js.Boolean false)) /\
  (Js.startsWith T "__" || Js.truthy (Obj.get T (scalars (config this))) = false ->
   Obj.has T (mappers (config this)) = true ->
   Obj.get T (buildNestedMapping this) = Some (Js.Boolean true)) /\
  (Obj.has T (mappers (config this)) = false ->
   isObjectType (getType this T) || isInterfaceType (getType this T) = false ->
   Obj.get T (buildNestedMapping this) = Some (Js.Boolean false)).
Proof.
  intros HT Hp.
  destruct (dependency_table_entry this T HT (inObjectPrototype_proto T Hp)) as [v Hv].
  destruct (dependency_table_cases this T v Hv Hp) as (H1 & H2 & H3).
  rewrite Hv. repeat split; intros; f_equal; auto.
Qed.

Lemma dependency_table_decided_witness :
  In "User" (Obj.keys (_schema mappedVisitor)) /\
  Js.inObjectPrototype "User" = false /\
  Obj.has "User" (mappers (config mappedVisitor)) = true /\
  Obj.get "User" (buildNestedMapping mappedVisitor) = Some (Js.Boolean true).
Proof.
  assert (HT : In "User" (Obj.keys (_schema mappedVisitor))) by (cbn; tauto).
  split; [exact HT|]. split; [reflexivity|]. split; [reflexivity|].
  exact (proj1 (proj2 (dependency_table_decided mappedVisitor "User" HT eq_refl))
           eq_refl eq_refl).
Defined.

(** X3.  The dependency table is exact.  The lookup of a type of the type
    map in it is truthy if and only if the type bears a name of
    [Object.prototype], or has an explicit mapper, or reaches such a type
    through fields of object and interface types; introspection types and
    configured scalars, unless they bear such a name, neither count nor lead
    anywhere.  The guard against cycles loses no answer. *)
Theorem dependency_table_exact (this : BaseResolversVisitor) (T : string) :
  In T (Obj.keys (_schema this)) ->
  (marked (buildNestedMapping this) T = true <-> requiresMapping this T).
Proof. intros HT. apply marked_exact. now left. Qed.

Lemma dependency_table_exact_witness :
  (marked (buildNestedMapping mappedVisitor) "Post" = true /\
   requiresMapping mappedVisitor "Post") /\
  (marked (buildNestedMapping mappedVisitor) "A" = false /\
   ~ requiresMapping mappedVisitor "A") /\
  (marked (buildNestedMapping inheritedNameVisitor) "Post" = true /\
   requiresMapping inheritedNameVisitor "Post").
Proof.
  assert (HP : In "Post" (Obj.keys (_schema mappedVisitor))) by (cbn; tauto).
  assert (HA : In "A" (Obj.keys (_schema mappedVisitor))) by (cbn; tauto).
  assert (HI : In "Post" (Obj.keys (_schema inheritedNameVisitor))) by (cbn; tauto).
  split; [|split].
  - split; [reflexivity|].
    exact (proj1 (dependency_table_exact mappedVisitor "Post" HP) eq_refl).
  - split; [reflexivity|]. intros H.
    apply (proj2 (dependency_table_exact mappedVisitor "A" HA)) in H.
    discriminate.
  - split; [reflexivity|].
    exact (proj1 (dependency_table_exact inheritedNameVisitor "Post" HI) eq_refl).
Defined.

(** ** More branches of the precedence chain *)

Section MoreEntries.

Variable this : BaseResolversVisitor.
Variables applyWrapper clearWrapper : string -> string.
Variable nestedMapping : Obj.t Js.flag.

Lemma resolveEntry_enum (T : string) (ev : ParsedEnumValue) :
  Js.arrayIncludes (_rootTypeNames this) T = false ->
  isEnumType (getType this T) = true ->
  Obj.get T (enumValues (config this)) = Some ev ->
  Obj.get T (mappers (config this)) = None ->
  Js.truthy (Obj.get T (scalars (config this))) = false ->
  resolveEntry this applyWrapper clearWrapper nestedMapping T =
  if hasDefaultMapper this && hasPlaceholder (defaultMapperType this)
  then applyWrapper
         (replacePlaceholder (defaultMapperType this) (clearWrapper (typeIdentifier ev)))
  else typeIdentifier ev.
Proof.
  intros Hroot Henum Hev Hm Hs. unfold resolveEntry.
  rewrite Hroot, Henum, Hev, Hs. unfold Obj.has. rewrite Hm.
  unfold isEnumType in Henum.
  unfold isObjectType, isInterfaceType, isUnionType.
  destruct (kind (getType this T)); try discriminate.
  cbn [andb negb orb]. reflexivity.
Qed.

Lemma resolveEntry_default (T : string) :
  Js.arrayIncludes (_rootTypeNames this) T = false ->
  isEnumType (getType this T) && Obj.has T (enumValues (config this)) = false ->
  Obj.get T (mappers (config this)) = None ->
  isInterfaceType (getType this T) = false ->
  hasDefaultMapper this = true ->
  hasPlaceholder (defaultMapperType this) = false ->
  resolveEntry this applyWrapper clearWrapper nestedMapping T =
  applyWrapper (defaultMapperType this).
Proof.
  intros Hroot Henum Hm Hi Hd Hp. unfold resolveEntry.
  rewrite Hroot, (no_enum_override this T Henum), Hd, Hp, Hi.
  unfold Obj.has. rewrite Hm. cbn [andb negb orb]. reflexivity.
Qed.

Lemma resolveEntry_scalar (T : string) :
  Js.arrayIncludes (_rootTypeNames this) T = false ->
  kind (getType this T) = ScalarKind ->
  Obj.get T (mappers (config this)) = None ->
  Js.truthy (Obj.get T (scalars (config this))) = true ->
  hasDefaultMapper this && negb (hasPlaceholder (defaultMapperType this)) = false ->
  resolveEntry this applyWrapper clearWrapper nestedMapping T =
  if hasDefaultMapper this
  then applyWrapper
         (replacePlaceholder (defaultMapperType this) (clearWrapper (_getScalar T)))
  else applyWrapper (_getScalar T).
Proof.
  intros Hroot Hkind Hm Hs Hd. unfold resolveEntry.
  rewrite Hroot, Hs, Hd. unfold Obj.has. rewrite Hm.
  unfold isEnumType, isObjectType, isInterfaceType, isUnionType. rewrite Hkind.
  cbn [andb negb orb].
  destruct (hasDefaultMapper this); cbn [andb negb orb] in *; [|reflexivity].
  apply negb_false_iff in Hd. now rewrite Hd.
Qed.

Lemma resolveEntry_object_template (T : string) (fields : list GraphQLField) :
  Js.arrayIncludes (_rootTypeNames this) T = false ->
  kind (getType this T) = ObjectKind fields ->
  convertName this T <> "any" ->
  Obj.get T (mappers (config this)) = None ->
  Js.truthy (Obj.get T (scalars (config this))) = false ->
  hasDefaultMapper this = true ->
  hasPlaceholder (defaultMapperType this) = true ->
  resolveEntry this applyWrapper clearWrapper nestedMapping T =
  applyWrapper
    (replacePlaceholder (defaultMapperType this)
       (clearWrapper
          (applyWrapper
             (if (0 <? List.length (relevantFieldsOf this nestedMapping fields))%nat
              then replaceFieldsInType (convertName this T)
                     (relevantFieldsOf this nestedMapping fields)
              else convertName this T)))).
Proof.
  intros Hroot Hkind Hany Hm Hs Hd Hp. unfold resolveEntry.
  rewrite Hroot, Hs, Hd, Hp. unfold Obj.has. rewrite Hm.
  unfold isEnumType, isObjectType, isInterfaceType, isUnionType, getFields.
  rewrite Hkind. cbn [andb negb orb].
  apply String.eqb_neq in Hany. rewrite Hany. cbn [andb negb orb].
  now destruct (0 <? _)%nat.
Qed.

(** What one run of the reduce marks is marked already when every marking
    iteration finds its name marked. *)
Lemma fold_step_used_fixed (ks : list string) (prev : ResolverTypes) (used : Obj.t bool) :
  (forall k, In k ks -> marksMapper this k = true -> Obj.get k used = Some true) ->
  snd (fold_left (resolversFieldsStep this applyWrapper clearWrapper nestedMapping)
         ks (prev, used)) = used.
Proof.
  revert prev. induction ks as [|k ks IH]; intros prev Hused; [reflexivity|].
  cbn [fold_left]. rewrite resolversFieldsStep_entry.
  assert (E : (if marksMapper this k then markMapperAsUsed k used else used) = used).
  { destruct (marksMapper this k) eqn:Hk; [|reflexivity].
    rewrite (markMapperAsUsed_marked this k used Hk).
    assert (H := Hused k (or_introl eq_refl) Hk).
    clear - H. induction used as [|[k0 v0] r IHr]; [discriminate|].
    cbn in *. destruct (String.eqb k0 k); [now injection H as -> | now rewrite IHr]. }
  rewrite E. apply IH. intros k0 Hk0. apply Hused. now right.
Qed.

End MoreEntries.

Lemma clearResolverTypeWrapper_getScalar (n : string) :
  clearResolverTypeWrapper (_getScalar n) = _getScalar n.
Proof. reflexivity. Qed.

(** X4.  An enum type with an enum override and without a mapper gets the
    override's identifier in both tables, not wrapped, unless the default
    mapper holds the placeholder: then the identifier is put into the
    default mapper's expression, and the result is wrapped. *)
Theorem enum_override_entry (this : BaseResolversVisitor) (T : string)
    (ev : ParsedEnumValue) :
  In T (Obj.keys (_schema this)) ->
  Js.startsWith T "__" = false ->
  Js.arrayIncludes (_rootTypeNames this) T = false ->
  isEnumType (getType this T) = true ->
  Obj.get T (enumValues (config this)) = Some ev ->
  Obj.get T (mappers (config this)) = None ->
  Js.truthy (Obj.get T (scalars (config this))) = false ->
  Obj.get T (_resolversTypes (construct this)) =
    Some (if hasDefaultMapper this && hasPlaceholder (defaultMapperType this)
          then applyResolverTypeWrapper
                 (replacePlaceholder (defaultMapperType this)
                    (clearResolverTypeWrapper (typeIdentifier ev)))
          else typeIdentifier ev) /\
  Obj.get T (_resolversParentTypes (construct this)) =
    Some (if hasDefaultMapper this && hasPlaceholder (defaultMapperType this)
          then replacePlaceholder (defaultMapperType this) (typeIdentifier ev)
          else typeIdentifier ev).
Proof.
  intros Hin Hintro Hroot Henum Hev Hm Hs.
  rewrite resolversTypes_get, resolversParentTypes_get by assumption.
  now rewrite !(resolveEntry_enum this _ _ _ T ev) by assumption.
Qed.

Lemma enum_override_entry_witness :
  (Obj.get "Color" (_resolversTypes (construct (enumVisitor None))) = Some "ColorEnum" /\
   Obj.get "Color" (_resolversParentTypes (construct (enumVisitor None)))
   = Some "ColorEnum") /\
  (Obj.get "Color"
     (_resolversTypes (construct (enumVisitor (Some (literalMapper "Partial<{T}>")))))
   = Some "ResolverTypeWrapper<Partial<ColorEnum>>" /\
   Obj.get "Color"
     (_resolversParentTypes (construct (enumVisitor (Some (literalMapper "Partial<{T}>")))))
   = Some "Partial<ColorEnum>").
Proof.
  split.
  - apply (enum_override_entry (enumVisitor None) "Color"
             {| typeIdentifier := "ColorEnum"; sourceFile := None |});
      try reflexivity.
    cbn. tauto.
  - apply (enum_override_entry (enumVisitor (Some (literalMapper "Partial<{T}>"))) "Color"
             {| typeIdentifier := "ColorEnum"; sourceFile := None |});
      try reflexivity.
    cbn. tauto.
Defined.

(** X5.  Under a default mapper without placeholder every type that is not
    a root type, has no enum override, no mapper and is no interface type
    gets the same entry, whatever its kind: the default mapper's expression,
    wrapped in [ResolversTypes] and bare in [ResolversParentTypes]. *)
Theorem default_mapper_entry (this : BaseResolversVisitor) (T : string) :
  In T (Obj.keys (_schema this)) ->
  Js.startsWith T "__" = false ->
  Js.arrayIncludes (_rootTypeNames this) T = false ->
  isEnumType (getType this T) && Obj.has T (enumValues (config this)) = false ->
  Obj.get T (mappers (config this)) = None ->
  isInterfaceType (getType this T) = false ->
  hasDefaultMapper this = true ->
  hasPlaceholder (defaultMapperType this) = false ->
  Obj.get T (_resolversTypes (construct this))
  = Some (applyResolverTypeWrapper (defaultMapperType this)) /\
  Obj.get T (_resolversParentTypes (construct this)) = Some (defaultMapperType this).
Proof.
  intros Hin Hintro Hroot Henum Hm Hi Hd Hp.
  rewrite resolversTypes_get, resolversParentTypes_get by assumption.
  now rewrite !resolveEntry_default by assumption.
Qed.

Lemma default_mapper_entry_witness :
  defaultMapper (config mappedDefaultVisitor) = Some (literalMapper "any") /\
  (Obj.get "SearchResult" (_resolversTypes (construct mappedDefaultVisitor))
   = Some "ResolverTypeWrapper<any>" /\
   Obj.get "SearchResult" (_resolversParentTypes (construct mappedDefaultVisitor))
   = Some "any") /\
  (Obj.get "ID" (_resolversTypes (construct mappedDefaultVisitor))
   = Some "ResolverTypeWrapper<any>" /\
   Obj.get "ID" (_resolversParentTypes (construct mappedDefaultVisitor)) = Some "any").
Proof.
  split; [reflexivity|]. split.
  - apply (default_mapper_entry mappedDefaultVisitor "SearchResult"); try reflexivity.
    cbn. tauto.
  - apply (default_mapper_entry mappedDefaultVisitor "ID"); try reflexivity.
    cbn. tauto.
Defined.

(** X6.  A configured scalar without mapper, under no default mapper free of
    the placeholder, is entered as its [Scalars] lookup, wrapped; under a
    default mapper with the placeholder the lookup is put into the default
    mapper's expression first. *)
Theorem scalar_entry (this : BaseResolversVisitor) (T : string) :
  In T (Obj.keys (_schema this)) ->
  Js.startsWith T "__" = false ->
  Js.arrayIncludes (_rootTypeNames this) T = false ->
  kind (getType this T) = ScalarKind ->
  Obj.get T (mappers (config this)) = None ->
  Js.truthy (Obj.get T (scalars (config this))) = true ->
  hasDefaultMapper this && negb (hasPlaceholder (defaultMapperType this)) = false ->
  Obj.get T (_resolversTypes (construct this)) =
    Some (applyResolverTypeWrapper
            (if hasDefaultMapper this
             then replacePlaceholder (defaultMapperType this) (_getScalar T)
             else _getScalar T)) /\
  Obj.get T (_resolversParentTypes (construct this)) =
    Some (if hasDefaultMapper this
          then replacePlaceholder (defaultMapperType this) (_getScalar T)
          else _getScalar T).
Proof.
  intros Hin Hintro Hroot Hkind Hm Hs Hd.
  rewrite resolversTypes_get, resolversParentTypes_get by assumption.
  rewrite !resolveEntry_scalar by assumption.
  rewrite clearResolverTypeWrapper_getScalar.
  now destruct (hasDefaultMapper this).
Qed.

Lemma scalar_entry_witness :
  (Obj.get "Date" (_resolversTypes (construct (enumVisitor None)))
   = Some "ResolverTypeWrapper<Scalars['Date']>" /\
   Obj.get "Date" (_resolversParentTypes (construct (enumVisitor None)))
   = Some "Scalars['Date']") /\
  (Obj.get "Date"
     (_resolversTypes (construct (enumVisitor (Some (literalMapper "Partial<{T}>")))))
   = Some "ResolverTypeWrapper<Partial<Scalars['Date']>>" /\
   Obj.get "Date"
     (_resolversParentTypes (construct (enumVisitor (Some (literalMapper "Partial<{T}>")))))
   = Some "Partial<Scalars['Date']>").
Proof.
  split.
  - apply (scalar_entry (enumVisitor None) "Date"); try reflexivity. cbn. tauto.
  - apply (scalar_entry (enumVisitor (Some (literalMapper "Partial<{T}>"))) "Date");
      try reflexivity.
    cbn. tauto.
Defined.

(** X7.  An object type without mapper under a default mapper with the
    placeholder: the placeholder is replaced by the type's representation
    (its converted name, with the replaced fields overridden if there are
    any) and the result is wrapped; [ResolversParentTypes] holds the same
    without the wrapper.  The representation is on one line and is not
    itself a wrapped text. *)
Theorem default_template_entry (this : BaseResolversVisitor) (T : string)
    (fields : list GraphQLField) :
  In T (Obj.keys (_schema this)) ->
  Js.startsWith T "__" = false ->
  Js.arrayIncludes (_rootTypeNames this) T = false ->
  kind (getType this T) = ObjectKind fields ->
  convertName this T <> "any" ->
  Obj.get T (mappers (config this)) = None ->
  Js.truthy (Obj.get T (scalars (config this))) = false ->
  hasDefaultMapper this = true ->
  hasPlaceholder (defaultMapperType this) = true ->
  let replaced := relevantFieldsOf this (buildNestedMapping this) fields in
  let representation :=
    if (0 <? List.length replaced)%nat
    then replaceFieldsInType (convertName this T) replaced
    else convertName this T in
  Js.hasLineTerminator representation = false ->
  Js.startsWith representation "ResolverTypeWrapper<" = false ->
  Obj.get T (_resolversTypes (construct this)) =
    Some (applyResolverTypeWrapper
            (replacePlaceholder (defaultMapperType this) representation)) /\
  Obj.get T (_resolversParentTypes (construct this)) =
    Some (replacePlaceholder (defaultMapperType this) representation).
Proof.
  intros Hin Hintro Hroot Hkind Hany Hm Hs Hd Hp replaced representation Hline Hbare.
  rewrite resolversTypes_get, resolversParentTypes_get by assumption.
  rewrite !(resolveEntry_object_template this _ _ _ T fields) by assumption.
  fold replaced. fold representation.
  assert (E : clearResolverTypeWrapper (applyResolverTypeWrapper representation)
              = representation).
  { unfold applyResolverTypeWrapper.
    rewrite clearResolverTypeWrapper_wrapped
      by now apply clearResolverTypeWrapper_hasLineTerminator.
    unfold clearResolverTypeWrapper. now rewrite Hbare. }
  now rewrite E.
Qed.

Lemma default_template_entry_witness :
  (Obj.get "A" (_resolversTypes (construct placeholderDefaultVisitor))
   = Some "ResolverTypeWrapper<Partial<A>>" /\
   Obj.get "A" (_resolversParentTypes (construct placeholderDefaultVisitor))
   = Some "Partial<A>") /\
  (Obj.get "Post" (_resolversTypes (construct placeholderDefaultVisitor))
   = Some ("ResolverTypeWrapper<Partial<Omit<Post, 'found'> & { "
           ++ "found?: Maybe<Array<Maybe<ResolversTypes['SearchResult']>>> }>>")).
Proof.
  assert (neA : convertName placeholderDefaultVisitor "A" <> "any") by discriminate.
  assert (neP : convertName placeholderDefaultVisitor "Post" <> "any") by discriminate.
  split.
  - apply (default_template_entry placeholderDefaultVisitor "A"
             (getFields (getType placeholderDefaultVisitor "A")));
      try reflexivity; [cbn; tauto | exact neA].
  - apply (default_template_entry placeholderDefaultVisitor "Post"
             (getFields (getType placeholderDefaultVisitor "Post")));
      try reflexivity; [cbn; tauto | exact neP].
Defined.

(** X8.  Building [ResolversParentTypes] marks no mapper that building
    [ResolversTypes] has not marked: the usage set after the constructor is
    the one the first table left. *)
Theorem second_table_keeps_usage (this : BaseResolversVisitor) :
  _usedMappers (construct this)
  = snd (createResolversFields this applyResolverTypeWrapper clearResolverTypeWrapper []).
Proof.
  rewrite construct_usedMappers.
  unfold createResolversFields at 1.
  apply fold_step_used_fixed.
  intros k Hk Hmark.
  rewrite createResolversFields_used, Hmark.
  apply arrayIncludes_In in Hk. now rewrite Hk.
Qed.

(** ** The order of [Object.keys] *)

Section KeyOrder.

Lemma insertByIndex_perm (n : N) (k : string) (l : list (N * string)) :
  Permutation (Js.insertByIndex n k l) ((n, k) :: l).
Proof.
  induction l as [|[m k'] l IH]; cbn; [reflexivity|].
  destruct (n <=? m)%N; [reflexivity|].
  rewrite IH. apply perm_swap.
Qed.

Lemma insertByIndex_sorted (n : N) (k : string) (l : list (N * string)) :
  StronglySorted (fun a b => (fst a <= fst b)%N) l ->
  StronglySorted (fun a b => (fst a <= fst b)%N) (Js.insertByIndex n k l).
Proof.
  induction l as [|[m k'] l IH]; intros Hs; cbn.
  - constructor; constructor.
  - inversion Hs as [|? ? Hl Hall]; subst.
    destruct (n <=? m)%N eqn:E.
    + apply N.leb_le in E. constructor; [exact Hs|].
      constructor; [exact E|].
      eapply Forall_impl; [|exact Hall]. intros [m' k''] H. cbn in *. lia.
    + apply N.leb_gt in E. constructor; [now apply IH|].
      rewrite (insertByIndex_perm n k l). constructor; [cbn; lia | exact Hall].
Qed.

Lemma sortedIndices_sorted (ks : list string) :
  StronglySorted (fun a b => (fst a <= fst b)%N) (Js.sortedIndices ks).
Proof.
  induction ks as [|k ks IH]; cbn; [constructor|].
  destruct (Js.arrayIndex k); [now apply insertByIndex_sorted | exact IH].
Qed.

Lemma sortedIndices_perm (ks : list string) :
  Permutation (map snd (Js.sortedIndices ks)) (filter Js.isArrayIndex ks).
Proof.
  induction ks as [|k ks IH]; cbn; [reflexivity|].
  unfold Js.isArrayIndex. destruct (Js.arrayIndex k) as [n|]; [|exact IH].
  rewrite (insertByIndex_perm n k). cbn. now constructor.
Qed.

Lemma sortedIndices_index (ks : list string) (n : N) (k : string) :
  In (n, k) (Js.sortedIndices ks) -> In k ks /\ Js.arrayIndex k = Some n.
Proof.
  induction ks as [|k0 ks IH]; cbn; [tauto|].
  destruct (Js.arrayIndex k0) as [n0|] eqn:E.
  - intros H. apply (Permutation_in _ (insertByIndex_perm n0 k0 _)) in H.
    destruct H as [[= <- <-]|H]; [tauto|]. destruct (IH H). tauto.
  - intros H. destruct (IH H). tauto.
Qed.

Lemma filter_partition_perm {A : Type} (p : A -> bool) (l : list A) :
  Permutation (filter p l ++ filter (fun x => negb (p x)) l) l.
Proof.
  induction l as [|a l IH]; cbn; [reflexivity|].
  destruct (p a); cbn; [now constructor|].
  rewrite <- Permutation_middle. now constructor.
Qed.

Lemma ownPropertyKeys_perm (ks : list string) :
  Permutation (Js.ownPropertyKeys ks) ks.
Proof.
  unfold Js.ownPropertyKeys. rewrite sortedIndices_perm.
  apply filter_partition_perm.
Qed.

(** Without array indices among them, the keys are listed as created. *)
Lemma ownPropertyKeys_named (ks : list string) :
  (forall k, In k ks -> Js.isArrayIndex k = false) -> Js.ownPropertyKeys ks = ks.
Proof.
  intros H. unfold Js.ownPropertyKeys.
  assert (E : Js.sortedIndices ks = []).
  { induction ks as [|k ks IH]; [reflexivity|]. cbn.
    assert (Hk := H k (or_introl eq_refl)). unfold Js.isArrayIndex in Hk.
    destruct (Js.arrayIndex k); [discriminate|].
    apply IH. intros k0 Hk0. apply H. now right. }
  rewrite E. cbn. apply forallb_filter_id, forallb_forall.
  intros k Hk. now rewrite (H k Hk).
Qed.

End KeyOrder.

(** ** The imports of external mappers *)

Section Imports.

Lemma findIdentifier_None (group : list MapperImport) (i : string) :
  findIdentifier group i = None <-> ~ In i (map identifier group).
Proof.
  unfold findIdentifier. induction group as [|m group IH]; cbn; [tauto|].
  destruct (String.eqb (identifier m) i) eqn:E.
  - apply String.eqb_eq in E. split; [discriminate | tauto].
  - apply String.eqb_neq in E. rewrite IH. tauto.
Qed.

(** [addMapper] throws on an inherited name that [groupedMappers] does not
    hold itself, and nowhere else. *)
Lemma addMapper_cases (g : Obj.t (list MapperImport)) (s i : string) (d : bool) :
  addMapper g s i d =
  if Js.inObjectPrototype s && negb (Obj.has s g) then Js.Throws
  else Js.Returns (addToGroup g s i d).
Proof.
  unfold addMapper, addToGroup, Plain.get, Obj.has.
  destruct (Obj.get s g) as [group|] eqn:E; cbn [negb andb].
  - rewrite andb_false_r, E. now destruct (findIdentifier group i).
  - rewrite andb_true_r. destruct (Js.inObjectPrototype s) eqn:Hp.
    + now rewrite E.
    + rewrite get_set_same. cbn. now rewrite set_set.
Qed.

Lemma NoDup_fst_set {V : Type} (k : string) (v : V) (o : Obj.t V) :
  NoDup (map fst o) -> NoDup (map fst (Obj.set k v o)).
Proof.
  intros H. rewrite fst_set. destruct (Obj.has k o) eqn:E; [exact H|].
  apply NoDup_app; [exact H | constructor; [intros [] | constructor] |].
  intros x Hx [<-|[]]. apply has_In_fst in Hx. congruence.
Qed.

Lemma wellGrouped_addToGroup (g : Obj.t (list MapperImport)) (s i : string) (d : bool) :
  wellGrouped g -> wellGrouped (addToGroup g s i d).
Proof.
  intros [Hnd Hg]. unfold addToGroup.
  destruct (Obj.get s g) as [group|] eqn:E.
  - destruct (findIdentifier group i) eqn:F; [now split|].
    split; [now apply NoDup_fst_set|].
    intros s' group'. destruct (string_dec s s') as [<-|ne].
    + rewrite get_set_same. intros [= <-]. split; [now destruct group|].
      rewrite map_app. apply NoDup_app.
      * now apply (Hg s group).
      * constructor; [intros [] | constructor].
      * intros x Hx [<-|[]]. now apply findIdentifier_None in F.
    + rewrite get_set_other by assumption. apply Hg.
  - split; [now apply NoDup_fst_set|].
    intros s' group'. destruct (string_dec s s') as [<-|ne].
    + rewrite get_set_same. intros [= <-]. split; [discriminate|].
      constructor; [intros [] | constructor].
    + rewrite get_set_other by assumption. apply Hg.
Qed.

Lemma imports_addToGroup_same (g : Obj.t (list MapperImport)) (s i : string) (d : bool) :
  imports (addToGroup g s i d) s i.
Proof.
  unfold addToGroup.
  destruct (Obj.get s g) as [group|] eqn:E.
  - destruct (findIdentifier group i) eqn:F.
    + exists group. split; [exact E|].
      destruct (in_dec string_dec i (map identifier group)) as [H|H]; [exact H|].
      apply findIdentifier_None in H. congruence.
    + eexists. split; [apply get_set_same|].
      rewrite map_app. apply in_or_app. right. now left.
  - eexists. split; [apply get_set_same | now left].
Qed.

Lemma imports_addToGroup_keep (g : Obj.t (list MapperImport)) (s i s' i' : string)
    (d : bool) :
  imports g s' i' -> imports (addToGroup g s i d) s' i'.
Proof.
  intros (group' & Hg & Hi). unfold addToGroup.
  destruct (Obj.get s g) as [group|] eqn:E.
  - destruct (findIdentifier group i); [now exists group'|].
    destruct (string_dec s s') as [<-|ne].
    + eexists. split; [apply get_set_same|].
      rewrite map_app. apply in_or_app. left. congruence.
    + exists group'. now rewrite get_set_other.
  - destruct (string_dec s s') as [<-|ne]; [congruence|].
    exists group'. now rewrite get_set_other.
Qed.

(** What a group holds was added. *)
Lemma member_addToGroup (g : Obj.t (list MapperImport)) (s i : string) (d : bool)
    (s' : string) (group' : list MapperImport) (m : MapperImport) :
  Obj.get s' (addToGroup g s i d) = Some group' ->
  In m group' ->
  (exists group, Obj.get s' g = Some group /\ In m group)
  \/ (s' = s /\ m = {| identifier := i; asDefault := d |}).
Proof.
  unfold addToGroup.
  destruct (Obj.get s g) as [group|] eqn:E.
  - destruct (findIdentifier group i); [intros H1 H2; left; eauto|].
    destruct (string_dec s s') as [<-|ne].
    + rewrite get_set_same. intros [= <-] Hm.
      apply in_app_or in Hm as [Hm|[<-|[]]]; [left; eauto | now right].
    + rewrite get_set_other by assumption. intros H1 H2. left. eauto.
  - destruct (string_dec s s') as [<-|ne].
    + rewrite get_set_same. intros [= <-] [<-|[]]. now right.
    + rewrite get_set_other by assumption. intros H1 H2. left. eauto.
Qed.

(** The sources of the groups: those there were, and the one added. *)
Lemma fst_addToGroup (g : Obj.t (list MapperImport)) (s i : string) (d : bool)
    (k : string) :
  In k (map fst (addToGroup g s i d)) -> In k (map fst g) \/ k = s.
Proof.
  unfold addToGroup.
  destruct (Obj.get s g) as [group|] eqn:E;
    [destruct (findIdentifier group i); [now left|]|];
    rewrite fst_set; destruct (Obj.has s g); try (now left);
    rewrite in_app_iff; intros [H|[<-|[]]]; tauto.
Qed.

Lemma get_In_NoDup {V : Type} (o : Obj.t V) (k : string) (v : V) :
  NoDup (map fst o) -> (Obj.get k o = Some v <-> In (k, v) o).
Proof.
  induction o as [|[k0 v0] r IH]; cbn; intros H; [split; [discriminate | tauto]|].
  inversion H as [|? ? Hk Hr]; subst.
  destruct (String.eqb k0 k) eqn:E.
  - apply String.eqb_eq in E. subst k0. split.
    + intros [= ->]. now left.
    + intros [[= ->]|Hin]; [reflexivity|].
      exfalso. apply Hk. now apply (in_map fst) in Hin.
  - apply String.eqb_neq in E. rewrite (IH Hr). split; [tauto|].
    intros [[= -> _]|Hin]; [congruence | exact Hin].
Qed.

Lemma andThen_returns {A : Type} (r : Js.completion A) :
  Js.andThen r (fun a => Js.Returns a) = r.
Proof. now destruct r. Qed.

Local Abbreviation addDescriptor :=
  (fun (g : Obj.t (list MapperImport)) (x : string * string * bool) =>
     addToGroup g (fst (fst x)) (snd (fst x)) (snd x)).

Local Abbreviation tryDescriptor :=
  (fun (r : Js.completion (Obj.t (list MapperImport))) (x : string * string * bool) =>
     Js.andThen r (fun g => addMapper g (fst (fst x)) (snd (fst x)) (snd x))).

Lemma fold_throws (ds : list (string * string * bool)) :
  fold_left tryDescriptor ds Js.Throws = Js.Throws.
Proof. induction ds as [|x ds IH]; [reflexivity | exact IH]. Qed.

(** Adding the descriptors one after the other throws exactly when one of
    them names an inherited source. *)
Lemma fold_tryDescriptor (ds : list (string * string * bool))
    (g : Obj.t (list MapperImport)) :
  (forall k, In k (map fst g) -> Js.inObjectPrototype k = false) ->
  fold_left tryDescriptor ds (Js.Returns g) =
  if inheritedSource ds then Js.Throws
  else Js.Returns (fold_left addDescriptor ds g).
Proof.
  revert g. induction ds as [|[[s i] d] ds IH]; intros g Hg; [reflexivity|].
  cbn [fold_left inheritedSource existsb fst snd Js.andThen].
  rewrite addMapper_cases.
  destruct (Js.inObjectPrototype s) eqn:Hp; cbn [andb orb].
  - destruct (Obj.has s g) eqn:Hh.
    + apply has_In_fst in Hh. rewrite (Hg s Hh) in Hp. discriminate.
    + cbn [negb]. apply fold_throws.
  - apply IH. intros k Hk.
    destruct (fst_addToGroup g s i d k Hk) as [H| ->]; [now apply Hg | exact Hp].
Qed.

Variable this : BaseResolversVisitor.
Variable strip : string -> string.

(** [groupedMappers] is the external descriptors added one after the
    other. *)
Lemma groupMappers_fold :
  groupMappers this strip
  = fold_left tryDescriptor (externalDescriptors this strip) (Js.Returns []).
Proof.
  unfold groupMappers, externalDescriptors.
  rewrite !fold_left_app.
  assert (E : forall ks r,
             fold_left
               (fun grouped gqlTypeName =>
                  Js.andThen grouped (fun grouped0 =>
                    match Obj.get gqlTypeName (mappers (config this)) with
                    | Some mapper =>
                        addMapper grouped0 (sourceOf mapper) (strip (type mapper))
                          (default mapper)
                    | None => Js.Returns grouped0
                    end))
               (filter (fun gqlTypeName =>
                          match Obj.get gqlTypeName (mappers (config this)) with
                          | Some m => isExternal m
                          | None => false
                          end) ks) r
             = fold_left tryDescriptor
                 (flat_map
                    (fun gqlTypeName =>
                       match Obj.get gqlTypeName (mappers (config this)) with
                       | Some m =>
                           if isExternal m
                           then [(sourceOf m, strip (type m), default m)]
                           else []
                       | None => []
                       end) ks) r).
  { induction ks as [|k ks IH]; intros r; [reflexivity|].
    cbn [filter flat_map]. rewrite fold_left_app.
    destruct (Obj.get k (mappers (config this))) as [m|] eqn:Hk; [|apply IH].
    destruct (isExternal m); [|apply IH].
    cbn [fold_left]. rewrite Hk. apply IH. }
  cbv zeta. rewrite E.
  destruct (isExternal (contextType (config this)));
    destruct (isExternal (rootValueType (config this)));
    destruct (defaultMapper (config this)) as [d|]; try destruct (isExternal d);
    cbn [fold_left fst snd]; rewrite ?andThen_returns; reflexivity.
Qed.

Lemma groupMappers_cases :
  groupMappers this strip =
  if inheritedSource (externalDescriptors this strip) then Js.Throws
  else Js.Returns (fold_left addDescriptor (externalDescriptors this strip) []).
Proof. rewrite groupMappers_fold. apply fold_tryDescriptor. intros k []. Qed.

Lemma fold_wellGrouped (ds : list (string * string * bool))
    (g : Obj.t (list MapperImport)) :
  wellGrouped g -> wellGrouped (fold_left addDescriptor ds g).
Proof.
  revert g. induction ds as [|x ds IH]; intros g Hg; [exact Hg|].
  cbn [fold_left]. apply IH. now apply wellGrouped_addToGroup.
Qed.

Lemma fold_imports (ds : list (string * string * bool))
    (g : Obj.t (list MapperImport)) (s i : string) :
  imports g s i \/ (exists d, In (s, i, d) ds) ->
  imports (fold_left addDescriptor ds g) s i.
Proof.
  revert g. induction ds as [|x ds IH]; intros g H.
  - destruct H as [H|[d []]]. exact H.
  - cbn [fold_left]. apply IH.
    destruct H as [H|[d [E|H]]].
    + left. now apply imports_addToGroup_keep.
    + left. subst x. apply imports_addToGroup_same.
    + right. now exists d.
Qed.

Lemma fold_members (ds : list (string * string * bool))
    (g : Obj.t (list MapperImport)) (s : string) (group : list MapperImport)
    (m : MapperImport) :
  Obj.get s (fold_left addDescriptor ds g) = Some group ->
  In m group ->
  (exists group0, Obj.get s g = Some group0 /\ In m group0)
  \/ In (s, identifier m, asDefault m) ds.
Proof.
  revert g. induction ds as [|x ds IH]; intros g Hg Hm; [left; eauto|].
  cbn [fold_left] in Hg.
  destruct (IH _ Hg Hm) as [(group0 & H0 & Hm0)|H]; [|right; now right].
  destruct (member_addToGroup _ _ _ _ _ _ _ H0 Hm0) as [H|[-> ->]]; [now left|].
  right. left. now destruct x as [[? ?] ?].
Qed.

(** When [groupedMappers] is filled without a throw, it is the descriptors
    added one after the other, and it is well grouped. *)
Lemma groupMappers_returns (g : Obj.t (list MapperImport)) :
  groupMappers this strip = Js.Returns g ->
  inheritedSource (externalDescriptors this strip) = false
  /\ g = fold_left addDescriptor (externalDescriptors this strip) []
  /\ wellGrouped g.
Proof.
  rewrite groupMappers_cases.
  destruct (inheritedSource _); [discriminate|]. intros [= <-].
  split; [reflexivity|]. split; [reflexivity|].
  apply fold_wellGrouped. split; [constructor | discriminate].
Qed.

End Imports.

(** X9.  When [mappersImports] returns, it gives one import statement per
    source, in the order of [Object.keys]: the sources that are array
    indices first, in ascending order, then the others in the order in
    which they were first met.  No source has two groups; every group holds
    at least one identifier and holds none twice. *)
Theorem mappersImports_groups (this : BaseResolversVisitor) (strip : string -> string)
    (g : Obj.t (list MapperImport)) :
  groupMappers this strip = Js.Returns g ->
  mappersImports this strip
  = Js.Returns (map (fun source => buildMapperImport source (groupOf g source))
                    (Js.ownPropertyKeys (map fst g))) /\
  NoDup (map fst g) /\
  Permutation (Js.ownPropertyKeys (map fst g)) (map fst g) /\
  StronglySorted (fun a b => (fst a <= fst b)%N) (Js.sortedIndices (map fst g)) /\
  ((forall s, In s (map fst g) -> Js.isArrayIndex s = false) ->
   Js.ownPropertyKeys (map fst g) = map fst g) /\
  (forall source types,
      In (source, types) g ->
      groupOf g source = types /\ types <> [] /\ NoDup (map identifier types)).
Proof.
  intros Hg.
  destruct (groupMappers_returns this strip g Hg) as (_ & _ & Hnd & Hgroups).
  split.
  { unfold mappersImports, Plain.keys. rewrite Hg. cbn [Js.andThen].
    now rewrite (keys_NoDup_fst _ Hnd). }
  split; [exact Hnd|].
  split; [apply ownPropertyKeys_perm|].
  split; [apply sortedIndices_sorted|].
  split; [apply ownPropertyKeys_named|].
  intros src types Hin. apply (get_In_NoDup _ src types Hnd) in Hin.
  split; [unfold groupOf; now rewrite Hin | now apply (Hgroups src)].
Qed.

Lemma mappersImports_groups_witness :
  mappersImports importingVisitor (fun s => s)
  = Js.Returns ["import { UserModel, PostModel } from './models';";
                "import AModel from './a';";
                "import { Context } from './context';"] /\
  mappersImports indexedSourceVisitor (fun s => s)
  = Js.Returns ["import { AModel } from '3';";
                "import { PostModel } from '7';";
                "import { UserModel } from './models';"].
Proof.
  split.
  - exact (proj1 (mappersImports_groups importingVisitor (fun s => s)
                    [("./models", [{| identifier := "UserModel"; asDefault := false |};
                                   {| identifier := "PostModel"; asDefault := false |}]);
                     ("./a", [{| identifier := "AModel"; asDefault := true |}]);
                     ("./context", [{| identifier := "Context"; asDefault := false |}])]
                    eq_refl)).
  - exact (proj1 (mappersImports_groups indexedSourceVisitor (fun s => s)
                    [("./models", [{| identifier := "UserModel"; asDefault := false |}]);
                     ("7", [{| identifier := "PostModel"; asDefault := false |}]);
                     ("3", [{| identifier := "AModel"; asDefault := false |}])]
                    eq_refl)).
Defined.

(** X10.  [mappersImports] throws exactly when an external descriptor (a
    mapper, the context type, the root value type or the default mapper)
    names as its source a name of [Object.prototype], under which
    [groupedMappers] answers an inherited member without [find].  When it
    returns, an identifier is imported from a source exactly when an
    external descriptor names it with that source; and what a group holds
    is a descriptor with its default flag. *)
Theorem mappersImports_descriptors (this : BaseResolversVisitor)
    (strip : string -> string) :
  (mappersImports this strip = Js.Throws <->
   inheritedSource (externalDescriptors this strip) = true) /\
  (forall g source,
      groupMappers this strip = Js.Returns g ->
      (forall i,
          (exists types, In (source, types) g /\ In i (map identifier types))
          <-> exists d, In (source, i, d) (externalDescriptors this strip)) /\
      (forall types m,
          In (source, types) g -> In m types ->
          In (source, identifier m, asDefault m) (externalDescriptors this strip))).
Proof.
  split.
  - unfold mappersImports. rewrite groupMappers_cases.
    destruct (inheritedSource _); cbn; split; congruence.
  - intros g source Hg.
    destruct (groupMappers_returns this strip g Hg) as (_ & -> & Hnd & _).
    assert (Hmem : forall types m,
               In (source, types)
                  (fold_left
                     (fun g0 x => addToGroup g0 (fst (fst x)) (snd (fst x)) (snd x))
                     (externalDescriptors this strip) []) ->
               In m types ->
               In (source, identifier m, asDefault m) (externalDescriptors this strip)).
    { intros types m Hin Hm. apply get_In_NoDup in Hin; [|exact Hnd].
      destruct (fold_members _ _ _ _ _ Hin Hm) as [(g0 & H0 & _)|H];
        [discriminate | exact H]. }
    split; [|exact Hmem].
    intros i. split.
    + intros (types & Hin & Hi). apply in_map_iff in Hi as (m & <- & Hm).
      exists (asDefault m). now apply (Hmem types).
    + intros Hd.
      destruct (fold_imports (externalDescriptors this strip) [] source i (or_intror Hd))
        as (types & Hget & Hi).
      exists types. split; [now apply get_In_NoDup | exact Hi].
Qed.

(** A mapper imported from a module called [constructor]. *)
Lemma mappersImports_descriptors_witness :
  externalDescriptors inheritedSourceVisitor (fun s => s)
  = [("constructor", "UserModel", false)] /\
  mappersImports inheritedSourceVisitor (fun s => s) = Js.Throws.
Proof.
  split; [reflexivity|].
  exact (proj2 (proj1 (mappersImports_descriptors inheritedSourceVisitor (fun s => s)))
           eq_refl).
Defined.

(** X11.  Without any external descriptor there is no import statement. *)
Theorem mappersImports_none (this : BaseResolversVisitor) (strip : string -> string) :
  (forall n m, Obj.get n (mappers (config this)) = Some m -> isExternal m = false) ->
  isExternal (contextType (config this)) = false ->
  isExternal (rootValueType (config this)) = false ->
  (forall d, defaultMapper (config this) = Some d -> isExternal d = false) ->
  mappersImports this strip = Js.Returns [].
Proof.
  intros Hm Hc Hr Hd.
  assert (E : externalDescriptors this strip = []).
  { unfold externalDescriptors. rewrite Hc, Hr.
    destruct (defaultMapper (config this)) as [d|] eqn:Ed;
      [rewrite (Hd d eq_refl)|]; rewrite !app_nil_r;
      (induction (Obj.keys (mappers (config this))) as [|k ks IH]; [reflexivity|];
       cbn [flat_map]; rewrite IH;
       destruct (Obj.get k (mappers (config this))) as [m|] eqn:Ek; [|reflexivity];
       now rewrite (Hm k m Ek)). }
  unfold mappersImports. now rewrite groupMappers_cases, E.
Qed.

Lemma mappersImports_none_witness :
  mappers (config plainVisitor) = [] /\
  mappersImports plainVisitor (fun s => s) = Js.Returns [].
Proof.
  split; [reflexivity|].
  apply (mappersImports_none plainVisitor (fun s => s)); try reflexivity; discriminate.
Defined.

(** ** Placeholders and wrappers *)

Section Texts.

Lemma prefix_drop (p s : string) :
  String.prefix p s = true -> s = p ++ Js.drop (String.length p) s.
Proof.
  revert s. induction p as [|a p IH]; intros s; [reflexivity|].
  destruct s as [|b s]; [discriminate|]. cbn.
  destruct (ascii_dec a b) as [->|]; [|discriminate].
  intros H. now rewrite <- (IH s H).
Qed.

Lemma append_assoc (a b c : string) : (a ++ b) ++ c = a ++ (b ++ c).
Proof. induction a as [|x a IH]; cbn; [reflexivity | now rewrite IH]. Qed.

Lemma splitAtFirst_found (pat b a : string) :
  exists r, Js.splitAtFirst pat (b ++ pat ++ a) = Some r.
Proof.
  induction b as [|c b [r IH]].
  - cbn [append]. destruct (pat ++ a) eqn:E; cbn [Js.splitAtFirst];
      rewrite <- E, prefix_app; eauto.
  - cbn [append Js.splitAtFirst]. rewrite IH.
    destruct (String.prefix pat _); [eauto|]. destruct r. eauto.
Qed.

Lemma splitAtFirst_split (pat s b a : string) :
  Js.splitAtFirst pat s = Some (b, a) -> s = b ++ pat ++ a.
Proof.
  revert b. induction s as [|c s IH]; intros b.
  - destruct pat; cbn; [|discriminate]. now intros [= <- <-].
  - cbn [Js.splitAtFirst]. destruct (String.prefix pat (String c s)) eqn:E.
    + intros [= <- <-]. now apply prefix_drop in E.
    + destruct (Js.splitAtFirst pat s) as [[b' a']|]; [|discriminate].
      intros [= <- <-]. cbn. now rewrite <- (IH b' eq_refl).
Qed.

Lemma splitAtFirst_placeholder (b a : string) :
  containsChar "{" b = false ->
  Js.splitAtFirst "{T}" (b ++ "{T}" ++ a) = Some (b, a).
Proof.
  induction b as [|c b IH]; intros Hb.
  { assert (E := prefix_app "{T}" a). cbn [append] in E |- *.
    cbn [Js.splitAtFirst]. now rewrite E. }
  cbn in Hb. apply orb_false_iff in Hb as [Hc Hb].
  change (String c b ++ "{T}" ++ a) with (String c (b ++ "{T}" ++ a)).
  cbn [Js.splitAtFirst]. rewrite (IH Hb).
  cbn [String.prefix].
  destruct (ascii_dec "{" c) as [<-|]; [discriminate | reflexivity].
Qed.

Lemma getSubstitution_plain (matched before after n : string) :
  containsChar "$" n = false ->
  Js.getSubstitution matched before after n = n.
Proof.
  induction n as [|c n IH]; intros Hn; [reflexivity|].
  cbn in Hn. apply orb_false_iff in Hn as [Hc Hn].
  cbn [Js.getSubstitution]. rewrite Hc. now rewrite (IH Hn).
Qed.

Lemma splitLast_drop (n : nat) (s b : string) (l : ascii) :
  Js.splitLast (Js.drop n s) = Some (b, l) ->
  exists b', Js.splitLast s = Some (b', l).
Proof.
  revert s b. induction n as [|n IH]; intros s b; [eauto|].
  destruct s as [|c s]; [discriminate|]. cbn [Js.drop]. intros H.
  destruct (IH s b H) as [b' Hb']. cbn. rewrite Hb'. eauto.
Qed.

Lemma replaceWrapped_open (P s : string) :
  endsWithChar ">" s = false -> Js.replaceWrapped P s = s.
Proof.
  induction s as [|c r IH]; intros Hs.
  - cbn. unfold Js.matchWrappedHere.
    destruct (String.prefix P ""); [|reflexivity].
    now destruct P.
  - cbn [Js.replaceWrapped].
    assert (E : Js.matchWrappedHere P (String c r) = None).
    { unfold Js.matchWrappedHere.
      destruct (String.prefix P (String c r)); [|reflexivity].
      destruct (Js.splitLast (Js.drop _ _)) as [[body l]|] eqn:El; [|reflexivity].
      destruct (splitLast_drop _ _ _ _ El) as [b' Hb'].
      unfold endsWithChar in Hs. rewrite Hb' in Hs. now rewrite Hs. }
    rewrite E. f_equal. apply IH.
    unfold endsWithChar in *. cbn in Hs.
    destruct (Js.splitLast r) as [[i l]|]; [exact Hs | reflexivity].
Qed.

End Texts.

(** X12.  The placeholder test finds the token wherever it stands; a
    pattern without the token is left as it is; and of several tokens only
    the first is replaced (by a name without the dollar sign, which the
    replacement would read as a pattern of its own). *)
Theorem replacePlaceholder_first_token :
  (forall p, hasPlaceholder p = true <-> exists b a, p = b ++ "{T}" ++ a) /\
  (forall p n, hasPlaceholder p = false -> replacePlaceholder p n = p) /\
  (forall b a n,
      containsChar "{" b = false ->
      containsChar "$" n = false ->
      replacePlaceholder (b ++ "{T}" ++ a) n = b ++ n ++ a).
Proof.
  unfold hasPlaceholder, replacePlaceholder, Js.includes, Js.replaceFirst.
  split; [|split].
  - intros p. split.
    + destruct (Js.splitAtFirst "{T}" p) as [[b a]|] eqn:E; [|discriminate].
      intros _. exists b, a. now apply splitAtFirst_split.
    + intros (b & a & ->). destruct (splitAtFirst_found "{T}" b a) as [r ->].
      reflexivity.
  - intros p n. now destruct (Js.splitAtFirst "{T}" p).
  - intros b a n Hb Hn.
    now rewrite (splitAtFirst_placeholder b a Hb), (getSubstitution_plain _ _ _ n Hn).
Qed.

Lemma replacePlaceholder_first_token_witness :
  containsChar "{" "Pair<" = false /\
  containsChar "$" "User" = false /\
  replacePlaceholder "Pair<{T}, {T}>" "User" = "Pair<User, {T}>".
Proof.
  split; [reflexivity|]. split; [reflexivity|].
  exact (proj2 (proj2 replacePlaceholder_first_token) "Pair<" ", {T}>" "User"
           eq_refl eq_refl).
Defined.

(** X13.  [clearMaybe] undoes [applyMaybe] on a text on one line; and a text
    that does not end in [>] is left as it is by [clearMaybe] and by
    [clearResolverTypeWrapper], also when it starts with the marker. *)
Theorem clear_wrappers_edges :
  (forall m, Js.hasLineTerminator m = false -> clearMaybe (applyMaybe m) = m) /\
  (forall s, endsWithChar ">" s = false ->
             clearMaybe s = s /\ clearResolverTypeWrapper s = s).
Proof.
  split; [exact clearMaybe_applyMaybe|].
  intros s Hs. unfold clearMaybe, clearResolverTypeWrapper.
  split;
    match goal with |- (if ?c then _ else _) = _ => destruct c end;
    trivial; now apply replaceWrapped_open.
Qed.

Lemma clear_wrappers_edges_witness :
  endsWithChar ">" "ResolverTypeWrapper<User> | null" = false /\
  clearResolverTypeWrapper "ResolverTypeWrapper<User> | null"
  = "ResolverTypeWrapper<User> | null" /\
  clearMaybe (applyMaybe "Array<Maybe<User>>") = "Array<Maybe<User>>".
Proof.
  split; [reflexivity|]. split.
  - exact (proj2 (proj2 clear_wrappers_edges "ResolverTypeWrapper<User> | null" eq_refl)).
  - exact (proj1 clear_wrappers_edges "Array<Maybe<User>>" eq_refl).
Defined.

(** ** The analysis and the field-level override together *)

(** X14.  Against the finished dependency table, a field is given a
    replacement entry exactly when its base type has an explicit mapper, is
    a union, or requires mapping: bears a name of [Object.prototype], or
    reaches a type with an explicit mapper or with such a name through
    fields. *)
Theorem field_override_by_schema (this : BaseResolversVisitor) (f : GraphQLField) :
  fieldNeedsOverride this (buildNestedMapping this) f = true <->
  Obj.has (getBaseTypeName (fieldType f)) (mappers (config this)) = true
  \/ isUnionType (getBaseType this (fieldType f)) = true
  \/ requiresMapping this (getBaseTypeName (fieldType f)).
Proof.
  unfold fieldNeedsOverride.
  set (base := getBaseTypeName (fieldType f)).
  destruct (Obj.has base (mappers (config this))) eqn:Hm; cbn [orb]; [tauto|].
  destruct (isUnionType (getBaseType this (fieldType f))); [rewrite orb_true_r; tauto|].
  rewrite orb_false_r.
  assert (H := marked_exact this base (or_intror Hm)).
  split; [tauto|]. intros [H'|[H'|H']]; try discriminate. now apply H.
Qed.

(** X15.  An object type whose converted name is [any], without mapper,
    default mapper or scalar configuration, is entered as the bare [any] in
    both tables: the field-level override, and with it the wrapper, is
    skipped. *)
Theorem object_named_any_entry (this : BaseResolversVisitor) (T : string)
    (fields : list GraphQLField) :
  In T (Obj.keys (_schema this)) ->
  Js.startsWith T "__" = false ->
  Js.arrayIncludes (_rootTypeNames this) T = false ->
  kind (getType this T) = ObjectKind fields ->
  convertName this T = "any" ->
  Obj.get T (mappers (config this)) = None ->
  hasDefaultMapper this = false ->
  Js.truthy (Obj.get T (scalars (config this))) = false ->
  Obj.get T (_resolversTypes (construct this)) = Some "any" /\
  Obj.get T (_resolversParentTypes (construct this)) = Some "any".
Proof.
  intros Hin Hintro Hroot Hkind Hany Hm Hd Hs.
  rewrite resolversTypes_get, resolversParentTypes_get by assumption.
  unfold resolveEntry. rewrite Hroot, Hs, Hd, Hany. unfold Obj.has. rewrite Hm.
  unfold isEnumType, isObjectType, isInterfaceType, isUnionType. rewrite Hkind.
  cbn. now split.
Qed.

Lemma object_named_any_entry_witness :
  convertName (sampleVisitor [] None (fun _ => "any")) "A" = "any" /\
  Obj.get "A" (_resolversTypes (construct (sampleVisitor [] None (fun _ => "any"))))
  = Some "any".
Proof.
  split; [reflexivity|].
  apply (object_named_any_entry (sampleVisitor [] None (fun _ => "any")) "A"
           (getFields (getType (sampleVisitor [] None (fun _ => "any")) "A")));
    try reflexivity.
  cbn. tauto.
Defined.

(** ** Termination of the analysis, and its guard against cycles *)

Section Guard.

Variable this : BaseResolversVisitor.

Lemma filter_idempotent {A : Type} (p : A -> bool) (l : list A) :
  filter p (filter p l) = filter p l.
Proof.
  induction l as [|a l IH]; [reflexivity|]. cbn.
  destruct (p a) eqn:E; cbn; [rewrite E; now f_equal | exact IH].
Qed.

(** The loop over the fields reads the name of the type only. *)
Lemma shouldMapFields_name
    (recur : GraphQLNamedType -> list string -> option (Js.flag * list string))
    (t t' : GraphQLNamedType) (cb : Obj.t Js.flag) (fs : list GraphQLField) :
  name t = name t' ->
  forall dc, shouldMapFields this recur t cb fs dc = shouldMapFields this recur t' cb fs dc.
Proof.
  intros Hn. induction fs as [|f rest IH]; intros dc; [reflexivity|].
  cbn [shouldMapFields]. cbv zeta. rewrite Hn.
  destruct (checked cb _) as [v|]; [destruct (Js.toBoolean v); [reflexivity | apply IH]|].
  destruct (Obj.has _ _); [reflexivity|].
  destruct (recur _ _) as [[v dc2]|]; [|reflexivity].
  destruct (Js.toBoolean v); [reflexivity | apply IH].
Qed.

(** The fields whose base type is on the array have no part in the
    answer. *)
Lemma shouldMapTypeFuel_guard (fuel : nat) (t : GraphQLNamedType)
    (cb : Obj.t Js.flag) (dc : list string) :
  shouldMapTypeFuel this fuel t cb dc =
  shouldMapTypeFuel this fuel
    (withFields t
       (filter (fun f => negb (Js.arrayIncludes dc (getBaseTypeName (fieldType f))))
          (getFields t)))
    cb dc.
Proof.
  destruct fuel as [|fuel]; [reflexivity|].
  destruct t as [n k].
  cbn [shouldMapTypeFuel withFields name kind].
  destruct (checked cb n); [reflexivity|].
  destruct (_ || _); [reflexivity|].
  destruct (Obj.has _ _); [reflexivity|].
  unfold isObjectType, isInterfaceType, getFields. cbn [kind].
  destruct k; unfold withFields; cbn [orb kind name]; try reflexivity; cbv zeta;
    cbn [getBaseType getType name]; rewrite filter_idempotent;
    match goal with
    | |- match shouldMapFields this ?r ?t1 cb ?fs dc with _ => _ end
         = match shouldMapFields this _ ?t2 cb _ dc with _ => _ end =>
        now rewrite (shouldMapFields_name r t1 t2 cb fs eq_refl dc)
    end.
Qed.

End Guard.

(** X16.  [shouldMapType] terminates on every type map, for every type,
    memo table and [duringCheck] array: it returns once the fuel reaches
    [shouldMapTypeDepth], more fuel gives the same value, and the array only
    grows.  Where the memo table has no answer for the type, the value is a
    boolean.  A field whose base type is on [duringCheck] is not looked at:
    the answer is that of the type without those fields, so that a type all
    of whose fields are such, without memoized answer and without mapper, is
    answered [false]. *)
Theorem shouldMapType_terminates (this : BaseResolversVisitor)
    (t : GraphQLNamedType) (checkedBefore : Obj.t Js.flag) (duringCheck : list string)
    (fuel : nat) :
  shouldMapTypeDepth this <= fuel ->
  (exists duringCheck',
      shouldMapTypeFuel this fuel t checkedBefore duringCheck
      = Some (shouldMapType this t checkedBefore duringCheck, duringCheck')
      /\ incl duringCheck duringCheck') /\
  (checked checkedBefore (name t) = None ->
   exists b, shouldMapType this t checkedBefore duringCheck = Js.Boolean b) /\
  shouldMapType this t checkedBefore duringCheck
  = shouldMapType this
      (withFields t
         (filter (fun f => negb (Js.arrayIncludes duringCheck
                                   (getBaseTypeName (fieldType f))))
            (getFields t)))
      checkedBefore duringCheck /\
  (checked checkedBefore (name t) = None ->
   Obj.has (name t) (mappers (config this)) = false ->
   (forall f, In f (getFields t) ->
              Js.arrayIncludes duringCheck (getBaseTypeName (fieldType f)) = true) ->
   shouldMapType this t checkedBefore duringCheck = Js.Boolean false).
Proof.
  intros Hfuel.
  destruct (shouldMapType_run this t checkedBefore duringCheck) as (dc' & Hrun & Hincl).
  split; [|split; [|split]].
  - exists dc'. split; [|exact Hincl].
    exact (shouldMapTypeFuel_mono this _ fuel t checkedBefore duringCheck _ Hfuel Hrun).
  - intros Hmemo. rewrite shouldMapType_unfold. cbn [shouldMapTypeFuel].
    rewrite Hmemo.
    destruct (_ || _); [eauto|].
    destruct (Obj.has _ _); [eauto|].
    destruct (isObjectType t || isInterfaceType t); [|eauto].
    cbv zeta. destruct (shouldMapFields _ _ _ _ _ _) as [[b d]|]; eauto.
  - unfold shouldMapType. now rewrite <- shouldMapTypeFuel_guard.
  - intros Hmemo Hmapped Hfields.
    rewrite shouldMapType_unfold. cbn [shouldMapTypeFuel].
    rewrite Hmemo, Hmapped.
    destruct (_ || _); [reflexivity|].
    destruct (isObjectType t || isInterfaceType t); [|reflexivity].
    cbv zeta.
    assert (Hkept : filter
                      (fun f => negb (Js.arrayIncludes duringCheck
                                        (name (getBaseType this (fieldType f)))))
                      (getFields t) = []).
    { revert Hfields. generalize (getFields t) as fs.
      induction fs as [|f fs IH]; intros Hfields; [reflexivity|].
      cbn [filter getBaseType getType name].
      rewrite (Hfields f (or_introl eq_refl)). cbn [negb].
      apply IH. intros f0 Hf0. apply Hfields. now right. }
    now rewrite Hkept.
Qed.

(** Two object types that refer to each other, neither of them mapped; and
    [A], whose only field leads to [B], entered while [B] is on the array. *)
Lemma shouldMapType_terminates_witness :
  shouldMapTypeDepth plainVisitor <= 21 /\
  (exists duringCheck',
      shouldMapTypeFuel plainVisitor 21 (getType plainVisitor "A") [] []
      = Some (Js.Boolean false, duringCheck') /\ incl [] duringCheck') /\
  (exists duringCheck',
      shouldMapTypeFuel plainVisitor 21 (getType plainVisitor "B")
        [("A", Js.Boolean false)] []
      = Some (Js.Boolean false, duringCheck') /\ incl [] duringCheck') /\
  shouldMapType plainVisitor (getType plainVisitor "A") [] ["B"] = Js.Boolean false.
Proof.
  split; [apply le_n|]. split; [|split].
  - exact (proj1 (shouldMapType_terminates plainVisitor (getType plainVisitor "A")
                    [] [] 21 (le_n 21))).
  - exact (proj1 (shouldMapType_terminates plainVisitor (getType plainVisitor "B")
                    [("A", Js.Boolean false)] [] 21 (le_n 21))).
  - refine (proj2 (proj2 (proj2 (shouldMapType_terminates plainVisitor
                                   (getType plainVisitor "A") [] ["B"] 21 (le_n 21))))
              eq_refl eq_refl _).
    intros f [<-|[]]. reflexivity.
Defined.
